(** * serverStick: matchmaking queue, battle sessions, message router and
      the persistence gateway

    A shallow embedding of the Socket.IO battle server (the server entry
    file with the [wins] counters) and of [src/utils/database.ts].

    Conventions of the embedding.
    - The two process-wide variables [matchmakingQueue] and [battles] are
      the fields of [State]; every handler is a function from the state
      before to the state after together with the list of emitted events,
      in emission order (handlers run to completion, one at a time).
    - [battles] is a JavaScript object used as a dictionary: a [gmap] from
      the key to the session record.  Session records are JavaScript
      objects, mutated in place by JOIN_BATTLE and SEND_BATTLE_MESSAGE; the
      field [oid] is the identity of that object (its allocation number),
      it is not a field of the source record.
    - [randomUUID()] and [generateBattleCode()] are inputs of the handlers
      that call them.  [randomUUID()] returns a 36-character UUID, never the
      name [__proto__], so the assignment of a pairing always stores a key.
    - Fields that the handlers read without a default ([userId],
      [battleId], [message]) are present strings/objects; [username] and
      [appearance] are optional and defaulted with [||] as in the source.
    - [wins] is an integer-valued JavaScript number that only ever changes
      by [+= 1] from [0]; it is an integer here.
    - [battles[k]] on a plain JavaScript object reads through the prototype
      chain: [read] gives the own property, then what the object inherits.
      An assignment to the key [__proto__] stores no key but installs the
      assigned session object as the prototype of [battles]; the field
      [prototype] of [State] holds it.  A handler that goes on with an
      inherited value that is not a session ends in a TypeError at its first
      [battle.player1] access, before it has written or emitted anything:
      [handle_message] then returns the state unchanged with no events, and
      [throws] tells that the handler ended this way.
    - The per-connection [userSocketMap] is only written, never read, and
      logging has no effect on the state: both are left out. *)

From Stdlib Require Import ZArith Ascii String List Sorted.
From stdpp Require Import gmap strings list fin_maps.

Module Server.

(** ** JavaScript values the router inspects *)

Inductive JsVal :=
| JUndefined
| JNull
| JBool (b : bool)
| JNum (n : Z)
| JStr (s : string)
| JObj (json : string).

Definition truthy (v : JsVal) : bool :=
  match v with
  | JUndefined | JNull => false
  | JBool b => b
  | JNum n => negb (n =? 0)%Z
  | JStr s => negb (String.eqb s "")
  | JObj _ => true
  end.

(** [v === n] for a number literal [n]. *)
Definition strict_eq_num (v : JsVal) (n : Z) : bool :=
  match v with
  | JNum k => (k =? n)%Z
  | _ => false
  end.

(** [if (s)] for an optional string: [undefined] and the empty string are
    falsy. *)
Definition truthy_str (o : option string) : bool :=
  match o with
  | Some s => negb (String.eqb s "")
  | None => false
  end.

(** [o || d] on an optional string. *)
Definition or_str (o : option string) (d : string) : string :=
  match o with
  | Some s => if String.eqb s "" then d else s
  | None => d
  end.

(** [v || {}]. *)
Definition or_obj (v : JsVal) : JsVal :=
  if truthy v then v else JObj "{}".

(** ** Game state *)

Record PlayerInfo := {
  userId : string;
  username : string;
  socketId : string;
  appearance : JsVal
}.

(** [{ ...player, wins }] *)
Record Player := {
  info :> PlayerInfo;
  wins : Z
}.

Record Battle := {
  oid : nat;
  battleId : string;
  code : string;
  player1 : Player;
  player2 : option Player;
  started : bool
}.

(** [battles] holds the own properties of the directory object;
    [prototype] is [None] while its prototype is [Object.prototype] and
    [Some b] once the session object [b] was installed as its prototype. *)
Record State := {
  matchmakingQueue : list PlayerInfo;
  battles : gmap string Battle;
  prototype : option Battle;
  allocated : nat
}.

Definition initial : State :=
  {| matchmakingQueue := []; battles := ∅; prototype := None;
     allocated := 0 |}.

Definition set_queue (q : list PlayerInfo) (s : State) : State :=
  {| matchmakingQueue := q; battles := battles s; prototype := prototype s;
     allocated := allocated s |}.

Definition set_battles (bs : gmap string Battle) (s : State) : State :=
  {| matchmakingQueue := matchmakingQueue s; battles := bs;
     prototype := prototype s; allocated := allocated s |}.

(** A write to a field of the session object that is the prototype. *)
Definition set_prototype (b : Battle) (s : State) : State :=
  {| matchmakingQueue := matchmakingQueue s; battles := battles s;
     prototype := Some b; allocated := allocated s |}.

(** [battles[k] = { ... }] with a freshly constructed object, for a key that
    is stored as an own property. *)
Definition store_new (k : string) (mk : nat -> Battle) (s : State) : State :=
  {| matchmakingQueue := matchmakingQueue s;
     battles := <[k := mk (allocated s)]> (battles s);
     prototype := prototype s;
     allocated := S (allocated s) |}.

(** [battles[k] = { ... }] for a key chosen by the client: [__proto__] is the
    accessor of [Object.prototype], its setter makes the new object the
    prototype of [battles] and stores no key; every other name becomes (or
    overwrites) an own property. *)
Definition assign_new (k : string) (mk : nat -> Battle) (s : State) : State :=
  if String.eqb k "__proto__" then
    {| matchmakingQueue := matchmakingQueue s; battles := battles s;
       prototype := Some (mk (allocated s));
       allocated := S (allocated s) |}
  else store_new k mk s.

(** The function-valued properties of [Object.prototype]. *)
Definition object_prototype_names : list string :=
  ["constructor"; "__defineGetter__"; "__defineSetter__"; "hasOwnProperty";
   "__lookupGetter__"; "__lookupSetter__"; "isPrototypeOf";
   "propertyIsEnumerable"; "toString"; "valueOf"; "toLocaleString"].

(** What [battles[k]] evaluates to. *)
Inductive Read :=
| ReadOwn (b : Battle)
| ReadProto (b : Battle)
| ReadOther (v : JsVal)
| ReadUndefined.

(** The property names of a session object. *)
Definition session_field_names : list string :=
  ["battleId"; "code"; "player1"; "player2"; "started"].

(** The fields of a session object, as properties inherited from it. *)
Definition inherited_field (b : Battle) (k : string) : option JsVal :=
  if String.eqb k "battleId" then Some (JStr (battleId b))
  else if String.eqb k "code" then Some (JStr (code b))
  else if String.eqb k "player1" then Some (JObj "player")
  else if String.eqb k "player2" then
    option_map (fun _ : Player => JObj "player") (player2 b)
  else if String.eqb k "started" then Some (JBool (started b))
  else None.

(** [battles[k]]: the own property; else, for [__proto__], the prototype
    itself; else a field of the session object that is the prototype; else a
    function of [Object.prototype]; else [undefined]. *)
Definition read (s : State) (k : string) : Read :=
  match battles s !! k with
  | Some b => ReadOwn b
  | None =>
      if String.eqb k "__proto__" then
        match prototype s with
        | Some b => ReadProto b
        | None => ReadOther (JObj "Object.prototype")
        end
      else
        match
          match prototype s with
          | Some b => inherited_field b k
          | None => None
          end
        with
        | Some v => ReadOther v
        | None =>
            if existsb (String.eqb k) object_prototype_names
            then ReadOther (JObj "function")
            else ReadUndefined
        end
  end.

(** ** Messages *)

(** The part of [message.message] the router looks at
    ([gameOver], [syncData?.winner]) and the rest of the payload. *)
Record BattleMessage := {
  gameOver : JsVal;
  winner : JsVal;
  body : string
}.

Inductive ClientMessage :=
| JOIN_QUEUE (uid : string) (uname : option string) (app : JsVal)
| LEAVE_QUEUE (uid : string)
| GET_QUEUE
| CREATE_BATTLE (uid bid : string) (uname : option string) (app : JsVal)
| JOIN_BATTLE (uid bid : string) (uname : option string) (app : JsVal)
| SEND_BATTLE_MESSAGE (uid bid : string) (msg : BattleMessage)
| LEAVE_BATTLE (uid bid : string)
| PING
| UNKNOWN (type : string).

Inductive ServerEvent :=
| CONNECTED
| QUEUE_UPDATE (queue : list PlayerInfo)
| MATCH_FOUND (bid opponentName : string) (opponentAppearance : JsVal)
| BATTLE_CODE_GENERATED (c : string)
| ERROR (error : string)
| BATTLE_WIN_STATE (player1Wins player2Wins : Z)
| BATTLE_MESSAGE (message : BattleMessage) (senderId : string)
| OPPONENT_DISCONNECTED
| PONG.

(** [io.emit] reaches every client, [io.to(id).emit] and [socket.emit] one
    socket. *)
Inductive Target :=
| ToAll
| ToSocket (id : string).

Definition Emit : Type := Target * ServerEvent.

Definition invalid_code : string :=
  "Invalid battle code or battle already started".

Definition battle_not_found : string := "Battle not found".

(** ** The matchmaking queue *)

Definition broadcastQueueUpdate (s : State) : list Emit :=
  [(ToAll, QUEUE_UPDATE (matchmakingQueue s))].

(** [Array.prototype.shift] *)
Definition shift {A} (l : list A) : option A * list A :=
  match l with
  | [] => (None, [])
  | x :: r => (Some x, r)
  end.

Definition processMatchmaking (uuid gcode : string) (s : State)
  : State * list Emit :=
  if (length (matchmakingQueue s) <? 2)%nat then (s, [])
  else
    let '(o1, q1) := shift (matchmakingQueue s) in
    let '(o2, q2) := shift q1 in
    let s1 := set_queue q2 s in
    match o1, o2 with
    | Some p1, Some p2 =>
        let s2 :=
          store_new uuid
            (fun o => {| oid := o; battleId := uuid; code := gcode;
                         player1 := {| info := p1; wins := 0 |};
                         player2 := Some {| info := p2; wins := 0 |};
                         started := true |}) s1 in
        (s2,
         [(ToSocket (socketId p1),
           MATCH_FOUND uuid (username p2) (appearance p2));
          (ToSocket (socketId p2),
           MATCH_FOUND uuid (username p1) (appearance p1))]
         ++ broadcastQueueUpdate s2)
    | _, _ => (s1, [])
    end.

(** The two statements of JOIN_QUEUE that change the queue:
    [filter(p => p.userId !== message.userId)] and [push(playerInfo)]. *)
Definition enqueue (p : PlayerInfo) (q : list PlayerInfo) : list PlayerInfo :=
  List.filter (fun e => negb (String.eqb (userId e) (userId p))) q ++ [p].

(** ** Handlers *)

Definition new_player (uid : string) (uname : option string) (sock : string)
    (app : JsVal) : PlayerInfo :=
  {| userId := uid; username := or_str uname "Anonymous";
     socketId := sock; appearance := or_obj app |}.

(** [battle.player2?.userId === uid] and [battle.player2?.socketId === id] *)
Definition opt_is (f : PlayerInfo -> string) (o : option Player) (x : string)
  : bool :=
  match o with
  | Some p => String.eqb (f p) x
  | None => false
  end.

Definition add_win (p : Player) : Player :=
  {| info := info p; wins := (wins p + 1)%Z |}.

Definition with_player1 (p : Player) (b : Battle) : Battle :=
  {| oid := oid b; battleId := battleId b; code := code b; player1 := p;
     player2 := player2 b; started := started b |}.

Definition with_player2 (p : Player) (b : Battle) : Battle :=
  {| oid := oid b; battleId := battleId b; code := code b;
     player1 := player1 b; player2 := Some p; started := started b |}.

Definition with_started (b : Battle) : Battle :=
  {| oid := oid b; battleId := battleId b; code := code b;
     player1 := player1 b; player2 := player2 b; started := true |}.

(** The win bookkeeping of SEND_BATTLE_MESSAGE on the session object. *)
Definition recordRoundResult (uid : string) (w : JsVal) (b : Battle) : Battle :=
  if strict_eq_num w 1 && String.eqb uid (userId (player1 b)) then
    with_player1 (add_win (player1 b)) b
  else if strict_eq_num w 2 && opt_is userId (player2 b) uid then
    match player2 b with
    | Some p2 => with_player2 (add_win p2) b
    | None => b
    end
  else b.

Definition winState (b : Battle) : ServerEvent :=
  BATTLE_WIN_STATE (wins (player1 b))
    (match player2 b with Some p2 => wins p2 | None => 0%Z end).

(** The other slot's connection, as computed by SEND_BATTLE_MESSAGE and
    LEAVE_BATTLE. *)
Definition opponentSocketId (uid : string) (b : Battle) : option string :=
  if String.eqb (userId (player1 b)) uid then
    option_map (fun p : Player => socketId p) (player2 b)
  else if opt_is userId (player2 b) uid then Some (socketId (player1 b))
  else None.

Definition to_opponent (o : option string) (e : ServerEvent) : list Emit :=
  match o with
  | Some id => if truthy_str (Some id) then [(ToSocket id, e)] else []
  | None => []
  end.

(** [Object.values(battles).find(b => b.battleId === id && !b.started)],
    keeping the key under which the object found is stored.  [Object.values]
    lists in insertion order and [map_to_list] in another; in a reachable
    state every session is stored under its own [battleId], so at most one
    session qualifies and the order plays no role. *)
Definition find_unstarted (bid : string) (bs : gmap string Battle)
  : option (string * Battle) :=
  List.find (fun kb : string * Battle =>
               String.eqb (battleId kb.2) bid && negb (started kb.2))
            (map_to_list bs).

(** The part of SEND_BATTLE_MESSAGE that follows the lookup, on the session
    object [battle0]; [write] stores the object after a change of its win
    counters where it lives (under its key, or as the prototype). *)
Definition route (write : Battle -> State) (s : State) (uid : string)
    (msg : BattleMessage) (battle0 : Battle) : State * list Emit :=
  let '(s1, battle, out1) :=
    if truthy (gameOver msg) && truthy (winner msg) then
      let b := recordRoundResult uid (winner msg) battle0 in
      (write b, b,
       (ToSocket (socketId (player1 b)), winState b)
       :: match player2 b with
          | Some p2 => [(ToSocket (socketId p2), winState b)]
          | None => []
          end)
    else (s, battle0, []) in
  (s1, out1 ++ to_opponent (opponentSocketId uid battle)
                 (BATTLE_MESSAGE msg uid)).

(** The handler of a client message: the state after it and the events it
    emitted.  Where the handler ends in a TypeError ([throws]) it has written
    and emitted nothing. *)
Definition handle_message (sock : string) (m : ClientMessage)
    (uuid gcode : string) (s : State) : State * list Emit :=
  match m with
  | JOIN_QUEUE uid uname app =>
      let playerInfo := new_player uid uname sock app in
      let s1 := set_queue (enqueue playerInfo (matchmakingQueue s)) s in
      let '(s2, out) := processMatchmaking uuid gcode s1 in
      (s2, broadcastQueueUpdate s1 ++ out)
  | LEAVE_QUEUE uid =>
      let s1 :=
        set_queue (List.filter (fun p => negb (String.eqb (userId p) uid))
                     (matchmakingQueue s)) s in
      (s1, broadcastQueueUpdate s1)
  | GET_QUEUE => (s, [(ToSocket sock, QUEUE_UPDATE (matchmakingQueue s))])
  | CREATE_BATTLE uid bid uname app =>
      (assign_new bid
         (fun o => {| oid := o; battleId := bid; code := bid;
                      player1 := {| info := new_player uid uname sock app;
                                    wins := 0 |};
                      player2 := None; started := false |}) s,
       [(ToSocket sock, BATTLE_CODE_GENERATED bid)])
  | JOIN_BATTLE uid bid uname app =>
      match find_unstarted bid (battles s) with
      | None => (s, [(ToSocket sock, ERROR invalid_code)])
      | Some (k, battleToJoin) =>
          let p2 := {| info := new_player uid uname sock app; wins := 0 |} in
          let b := with_started (with_player2 p2 battleToJoin) in
          (set_battles (<[k := b]> (battles s)) s,
           [(ToSocket (socketId (player1 b)),
             MATCH_FOUND (battleId b) (username p2) (appearance p2));
            (ToSocket sock,
             MATCH_FOUND (battleId b) (username (player1 b))
               (appearance (player1 b)))])
      end
  | SEND_BATTLE_MESSAGE uid bid msg =>
      match read s bid with
      | ReadOwn battle0 =>
          route (fun b => set_battles (<[bid := b]> (battles s)) s)
            s uid msg battle0
      | ReadProto battle0 =>
          route (fun b => set_prototype b s) s uid msg battle0
      | ReadOther v =>
          if truthy v then (s, [])
          else (s, [(ToSocket sock, ERROR battle_not_found)])
      | ReadUndefined => (s, [(ToSocket sock, ERROR battle_not_found)])
      end
  | LEAVE_BATTLE uid bid =>
      match read s bid with
      | ReadOwn battleToLeave =>
          (set_battles (delete bid (battles s)) s,
           to_opponent (opponentSocketId uid battleToLeave)
             OPPONENT_DISCONNECTED)
      | ReadProto battleToLeave =>
          (s, to_opponent (opponentSocketId uid battleToLeave)
                OPPONENT_DISCONNECTED)
      | ReadOther _ => (s, [])
      | ReadUndefined => (s, [])
      end
  | PING => (s, [(ToSocket sock, PONG)])
  | UNKNOWN _ => (s, [])
  end.

(** Whether the handler of [m] ends in a TypeError: SEND_BATTLE_MESSAGE and
    LEAVE_BATTLE do when [battles[id]] is a truthy value that is not a
    session, at [battle.player1.userId] (or [battle.player1.wins]), which
    comes before every write and every emit. *)
Definition throws (m : ClientMessage) (s : State) : bool :=
  match m with
  | SEND_BATTLE_MESSAGE _ bid _ | LEAVE_BATTLE _ bid =>
      match read s bid with
      | ReadOther v => truthy v
      | _ => false
      end
  | _ => false
  end.

(** One iteration of the [forEach] of the disconnect handler, on the
    directory and the events emitted so far.  [Object.entries] lists the own
    keys in insertion order, [map_to_list] in another order: the sessions
    removed are the same, the order of the notifications may differ. *)
Definition disconnect_battle (sock : string)
    (acc : gmap string Battle * list Emit) (kb : string * Battle)
  : gmap string Battle * list Emit :=
  let '(id, battle) := kb in
  if String.eqb (socketId (player1 battle)) sock then
    (delete id acc.1,
     acc.2 ++ to_opponent (option_map (fun p : Player => socketId p)
                             (player2 battle)) OPPONENT_DISCONNECTED)
  else if opt_is socketId (player2 battle) sock then
    (delete id acc.1,
     acc.2 ++ [(ToSocket (socketId (player1 battle)), OPPONENT_DISCONNECTED)])
  else acc.

Definition handle_disconnect (sock : string) (s : State) : State * list Emit :=
  let '(s1, out1) :=
    match List.find (fun p => String.eqb (socketId p) sock)
            (matchmakingQueue s) with
    | Some _ =>
        let s1 :=
          set_queue (List.filter
                       (fun p => negb (String.eqb (socketId p) sock))
                       (matchmakingQueue s)) s in
        (s1, broadcastQueueUpdate s1)
    | None => (s, [])
    end in
  let '(bs, out2) :=
    foldl (disconnect_battle sock) (battles s1, []) (map_to_list (battles s1)) in
  (set_battles bs s1, out1 ++ out2).

(** ** The event loop *)

Inductive Event :=
| Connection (sock : string)
| Message (sock : string) (m : ClientMessage) (uuid gcode : string)
| Disconnect (sock : string)
| MatchmakingTimer (uuid gcode : string).

Definition step (s : State) (e : Event) : State * list Emit :=
  match e with
  | Connection sock => (s, [(ToSocket sock, CONNECTED)])
  | Message sock m uuid gcode => handle_message sock m uuid gcode s
  | Disconnect sock => handle_disconnect sock s
  | MatchmakingTimer uuid gcode => processMatchmaking uuid gcode s
  end.

Definition run (s : State) (es : list Event) : State :=
  foldl (fun s e => (step s e).1) s es.

Inductive reachable : State -> Prop :=
| reachable_initial : reachable initial
| reachable_step s e : reachable s -> reachable (step s e).1.

(** ** How one event changes the session directory

    [evolves s s']: every session object of [s'] is either a session object
    of [s] under the same key, with the same identity and join key and a
    [started] flag that did not go back, or the one object allocated by the
    event. *)

Definition evolves (s s' : State) : Prop :=
  allocated s <= allocated s' /\
  exists fresh : option string,
    forall k b', battles s' !! k = Some b' ->
      (exists b, battles s !! k = Some b /\ oid b' = oid b /\
                 battleId b' = battleId b /\
                 (started b = true -> started b' = true))
      \/ (fresh = Some k /\ oid b' = allocated s /\
          allocated s < allocated s' /\ battleId b' = k).

(** ** Invariants of the reachable states *)

Record Inv (s : State) : Prop := {
  inv_keys : forall k b, battles s !! k = Some b -> battleId b = k;
  inv_oid_lt : forall k b, battles s !! k = Some b -> oid b < allocated s;
  inv_oid_inj : forall k1 k2 b1 b2,
      battles s !! k1 = Some b1 -> battles s !! k2 = Some b2 ->
      oid b1 = oid b2 -> k1 = k2
}.

(** ** Operations addressed to a session *)

(** The session a client message is addressed to. *)
Definition addressed_to (m : ClientMessage) : option string :=
  match m with
  | CREATE_BATTLE _ bid _ _ | JOIN_BATTLE _ bid _ _
  | SEND_BATTLE_MESSAGE _ bid _ | LEAVE_BATTLE _ bid => Some bid
  | _ => None
  end.

(** Some ERROR event is among the emitted events. *)
Definition reports_error (out : list Emit) : Prop :=
  exists t e, (t, ERROR e) ∈ out.

(** The events that store a session object under key [bid]. *)
Definition creates (bid : string) (e : Event) : Prop :=
  match e with
  | Message _ (CREATE_BATTLE _ b _ _) _ _ => b = bid
  | Message _ (JOIN_QUEUE _ _ _) uuid _ => uuid = bid
  | MatchmakingTimer uuid _ => uuid = bid
  | _ => False
  end.

(** ** Session records from one state to the next *)

(** The ways in which the record stored under key [k] after an event relates
    to the state [s] before it: it was there and is kept, or it is the
    session made by a pairing, or the one made by CREATE_BATTLE, or an
    unstarted session that was joined, or a session with a round result
    applied. *)
Inductive session_step (s : State) (k : string) : Battle -> Prop :=
| session_kept b :
    battles s !! k = Some b -> session_step s k b
| session_paired p1 p2 gcode :
    session_step s k
      {| oid := allocated s; battleId := k; code := gcode;
         player1 := {| info := p1; wins := 0 |};
         player2 := Some {| info := p2; wins := 0 |}; started := true |}
| session_created p1 :
    session_step s k
      {| oid := allocated s; battleId := k; code := k;
         player1 := {| info := p1; wins := 0 |};
         player2 := None; started := false |}
| session_joined b p2 :
    battles s !! k = Some b -> started b = false ->
    session_step s k (with_started (with_player2 {| info := p2; wins := 0 |} b))
| session_round b uid w :
    battles s !! k = Some b ->
    session_step s k (recordRoundResult uid w b).

(** What every session record of a reachable state satisfies. *)
Definition session_ok (b : Battle) : Prop :=
  (started b = true <-> is_Some (player2 b)) /\
  (0 <= wins (player1 b))%Z /\
  (forall p2, player2 b = Some p2 -> (0 <= wins p2)%Z).

(** [b'] is a later stage of the session object [b]: same identity, key and
    code, same players in the slots that [b] has filled, and win counters
    that are not smaller. *)
Definition grown (b b' : Battle) : Prop :=
  oid b' = oid b /\ battleId b' = battleId b /\ code b' = code b /\
  info (player1 b') = info (player1 b) /\
  (wins (player1 b) <= wins (player1 b'))%Z /\
  (forall p2, player2 b = Some p2 ->
     exists p2', player2 b' = Some p2' /\ info p2' = info p2 /\
                 (wins p2 <= wins p2')%Z) /\
  (started b = true -> started b' = true).

(** The connection [sock] holds a slot of [b]. *)
Definition involves (sock : string) (b : Battle) : Prop :=
  socketId (player1 b) = sock \/
  exists p2, player2 b = Some p2 /\ socketId p2 = sock.

(** The OPPONENT_DISCONNECTED events of one iteration of the disconnect
    handler's [forEach]. *)
Definition disconnect_notice (sock : string) (b : Battle) : list Emit :=
  if String.eqb (socketId (player1 b)) sock then
    to_opponent (option_map (fun p : Player => socketId p) (player2 b))
      OPPONENT_DISCONNECTED
  else if opt_is socketId (player2 b) sock then
    [(ToSocket (socketId (player1 b)), OPPONENT_DISCONNECTED)]
  else [].

(** ** Concrete states and messages used in the examples *)

Definition created_ABC123 : State :=
  run initial
    [Message "sockA" (CREATE_BATTLE "u1" "ABC123" None JUndefined) "" ""].

Definition started_ABC123 : State :=
  run initial
    [Message "sockA" (CREATE_BATTLE "u1" "ABC123" None JUndefined) "" "";
     Message "sockB" (JOIN_BATTLE "u2" "ABC123" None JUndefined) "" ""].

Definition left_ABC123 : State :=
  run initial
    [Message "sockA" (CREATE_BATTLE "u1" "ABC123" None JUndefined) "" "";
     Message "sockA" (LEAVE_BATTLE "u1" "ABC123") "" ""].

Definition two_waiting : State :=
  set_queue [new_player "u1" None "sockA" JUndefined;
             new_player "u2" None "sockB" JUndefined] initial.

Definition game_over_1 : BattleMessage :=
  {| gameOver := JBool true; winner := JNum 1; body := "" |}.

End Server.

(** * The persistence gateway ([src/utils/database.ts])

    [recordBattle] writes [moves] as the text [JSON.stringify(battle.moves)]
    and [getRecentBattles] reads it back with [JSON.parse].  Both are
    modelled for the values the gateway passes, arrays of strings: the
    encoder follows QuoteJSONString, the decoder accepts the JSON grammar of
    an array of strings (white space and all escapes included) and is [None]
    where [JSON.parse] throws or yields another shape.  A string is a
    sequence of 8-bit code units; an escape [\uXXXX] above [00ff] is outside
    the model and decodes to [None].

    The [battles] table is the list of its rows in insertion order; in a
    row of the table [winner = None] is NULL.  The prepared statement
    [insertBattle] binds the named parameter [@winner] from the object it is
    given: for a record without [winner] (the field is optional in
    [BlobBattleRecord]) the binding throws and nothing is inserted.  It also
    fails on a row whose [id] is already there (PRIMARY KEY) and, when
    foreign keys are enforced, on a row whose players or winner are not in
    [profiles].  [getRecentBattles] orders by [date], newest first, and keeps
    ten rows; rows of equal [date] come in insertion order, as SQLite
    returns them. *)

Module Database.

Local Open Scope char_scope.

Definition dquote : ascii := "034".
Definition backslash : ascii := "092".

(** ** JSON text of an array of strings *)

Definition hex_digit (n : N) : ascii :=
  ascii_of_N (if (n <? 10)%N then 48 + n else 87 + n)%N.

(** QuoteJSONString, one code unit at a time. *)
Definition quote_char (c : ascii) : list ascii :=
  let n := N_of_ascii c in
  if (n =? 8)%N then [backslash; "b"]
  else if (n =? 9)%N then [backslash; "t"]
  else if (n =? 10)%N then [backslash; "n"]
  else if (n =? 12)%N then [backslash; "f"]
  else if (n =? 13)%N then [backslash; "r"]
  else if (n =? 34)%N then [backslash; dquote]
  else if (n =? 92)%N then [backslash; backslash]
  else if (n <? 32)%N then
    [backslash; "u"; "0"; "0"; hex_digit (n / 16); hex_digit (n mod 16)]
  else [c].

(** QuoteJSONString *)
Definition quote (s : string) : list ascii :=
  dquote :: concat (map quote_char (list_ascii_of_string s)) ++ [dquote].

(** [JSON.stringify] of an array of strings, without indentation. *)
Definition JSON_stringify (a : list string) : string :=
  string_of_list_ascii
    ("[" :: match a with
            | [] => []
            | x :: r => quote x ++ concat (map (fun y => "," :: quote y) r)
            end ++ ["]"]).

Definition is_ws (c : ascii) : bool :=
  let n := N_of_ascii c in
  (n =? 32)%N || (n =? 9)%N || (n =? 10)%N || (n =? 13)%N.

Definition hex_value (c : ascii) : option N :=
  let n := N_of_ascii c in
  if (48 <=? n)%N && (n <=? 57)%N then Some (n - 48)%N
  else if (97 <=? n)%N && (n <=? 102)%N then Some (n - 87)%N
  else if (65 <=? n)%N && (n <=? 70)%N then Some (n - 55)%N
  else None.

Definition unescape (c : ascii) : option ascii :=
  let n := N_of_ascii c in
  if (n =? 34)%N then Some dquote
  else if (n =? 92)%N then Some backslash
  else if (n =? 47)%N then Some "/"
  else if (n =? 98)%N then Some (ascii_of_N 8)
  else if (n =? 102)%N then Some (ascii_of_N 12)
  else if (n =? 110)%N then Some (ascii_of_N 10)
  else if (n =? 114)%N then Some (ascii_of_N 13)
  else if (n =? 116)%N then Some (ascii_of_N 9)
  else None.

(** The decoder reads the text once, left to right; [PState] is where it
    is in the grammar, [cur] the code units of the string being read, in
    reverse. *)
Inductive PState :=
| Start
| AfterOpen
| InStr (cur : list ascii)
| Esc (cur : list ascii)
| Uni (cur : list ascii) (k : nat) (v : N)
| AfterStr
| AfterComma
| Done.

Fixpoint parse_from (st : PState) (acc : list string) (t : list ascii)
  : option (list string) :=
  match t with
  | [] => match st with Done => Some (rev acc) | _ => None end
  | c :: r =>
      match st with
      | Start =>
          if is_ws c then parse_from Start acc r
          else if Ascii.eqb c "[" then parse_from AfterOpen acc r
          else None
      | AfterOpen =>
          if is_ws c then parse_from AfterOpen acc r
          else if Ascii.eqb c "]" then parse_from Done acc r
          else if Ascii.eqb c dquote then parse_from (InStr []) acc r
          else None
      | InStr cur =>
          if Ascii.eqb c dquote then
            parse_from AfterStr (string_of_list_ascii (rev cur) :: acc) r
          else if Ascii.eqb c backslash then parse_from (Esc cur) acc r
          else if (N_of_ascii c <? 32)%N then None
          else parse_from (InStr (c :: cur)) acc r
      | Esc cur =>
          if Ascii.eqb c "u" then parse_from (Uni cur 0 0) acc r
          else match unescape c with
               | Some d => parse_from (InStr (d :: cur)) acc r
               | None => None
               end
      | Uni cur k v =>
          match hex_value c with
          | Some h =>
              let v' := (16 * v + h)%N in
              if (k <? 3)%nat then parse_from (Uni cur (S k) v') acc r
              else if (v' <? 256)%N then
                     parse_from (InStr (ascii_of_N v' :: cur)) acc r
                   else None
          | None => None
          end
      | AfterStr =>
          if is_ws c then parse_from AfterStr acc r
          else if Ascii.eqb c "," then parse_from AfterComma acc r
          else if Ascii.eqb c "]" then parse_from Done acc r
          else None
      | AfterComma =>
          if is_ws c then parse_from AfterComma acc r
          else if Ascii.eqb c dquote then parse_from (InStr []) acc r
          else None
      | Done => if is_ws c then parse_from Done acc r else None
      end
  end.

(** [JSON.parse] on a text whose value is read as [string[]]. *)
Definition JSON_parse (t : string) : option (list string) :=
  parse_from Start [] (list_ascii_of_string t).

(** ** The battles table *)

Record BattleRow (M : Type) := {
  id : string;
  player1 : string;
  player2 : string;
  winner : option string;
  date : Z;
  moves : M
}.
Arguments id {M}.
Arguments player1 {M}.
Arguments player2 {M}.
Arguments winner {M}.
Arguments date {M}.
Arguments moves {M}.

(** [BlobBattleRecord], and the same with [moves: string] as the table
    stores it. *)
Abbreviation BlobBattleRecord := (BattleRow (list string)).
Abbreviation StoredBattle := (BattleRow string).

(** [{ ...battle, moves: m }] *)
Definition with_moves {M M'} (m : M') (battle : BattleRow M) : BattleRow M' :=
  {| id := id battle; player1 := player1 battle; player2 := player2 battle;
     winner := winner battle; date := date battle; moves := m |}.

Record Db := {
  profiles : gset string;
  battles : list StoredBattle;
  foreign_keys : bool
}.

(** FOREIGN KEY (player1), (player2), (winner) REFERENCES profiles(userId) *)
Definition references_ok (db : Db) (row : StoredBattle) : bool :=
  bool_decide (player1 row ∈ profiles db)
  && bool_decide (player2 row ∈ profiles db)
  && match winner row with
     | Some w => bool_decide (w ∈ profiles db)
     | None => true
     end.

(** [insertBattle.run(row)]; [None] when the statement throws: a bind object
    without [winner] has no value for [@winner] and the binding throws, then
    the constraints of the table. *)
Definition insertBattle_run (db : Db) (row : StoredBattle) : option Db :=
  match winner row with
  | None => None
  | Some _ =>
      if existsb (fun r => String.eqb (id r) (id row)) (battles db) then None
      else if foreign_keys db && negb (references_ok db row) then None
      else Some {| profiles := profiles db; battles := battles db ++ [row];
                   foreign_keys := foreign_keys db |}
  end.

(** [r] goes before the first row that is not newer than it. *)
Fixpoint insert_row (r : StoredBattle) (l : list StoredBattle)
  : list StoredBattle :=
  match l with
  | [] => [r]
  | x :: l' => if (date x <=? date r)%Z then r :: l else x :: insert_row r l'
  end.

(** ORDER BY date DESC; among rows of equal [date] the row inserted earlier
    comes first. *)
Definition order_by_date_desc (l : list StoredBattle) : list StoredBattle :=
  foldr insert_row [] l.

(** [getRecentBattles.all()]: ORDER BY date DESC LIMIT 10 *)
Definition getRecentBattles_all (db : Db) : list StoredBattle :=
  take 10 (order_by_date_desc (battles db)).

(** [database.recordBattle]: the new table and the returned [battle.id]. *)
Definition recordBattle (db : Db) (battle : BlobBattleRecord)
  : option (Db * string) :=
  match insertBattle_run db (with_moves (JSON_stringify (moves battle)) battle) with
  | Some db' => Some (db', id battle)
  | None => None
  end.

(** [{ ...battle, moves: JSON.parse(battle.moves) }] *)
Definition decode (battle : StoredBattle) : option BlobBattleRecord :=
  match JSON_parse (moves battle) with
  | Some ms => Some (with_moves ms battle)
  | None => None
  end.

(** [database.getRecentBattles]; [None] when a [JSON.parse] throws. *)
Definition getRecentBattles (db : Db) : option (list BlobBattleRecord) :=
  mapM decode (getRecentBattles_all db).

(** Every stored row holds the encoding of some list of moves. *)
Definition stored_ok (db : Db) : Prop :=
  Forall (fun row : StoredBattle => exists ms, moves row = JSON_stringify ms)
         (battles db).

Definition newer_first (a b : StoredBattle) : Prop := (date b <= date a)%Z.

(** Newest first, for stored rows and decoded records alike. *)
Definition newest_first {M} (a b : BattleRow M) : Prop := (date b <= date a)%Z.

(** ** The profiles table *)

Record BlobProfile := {
  userId : string;
  username : string;
  wins : Z;
  losses : Z;
  lastActive : Z;
  evolutionLevel : Z
}.

(** [{ ...profile, lastActive: now }] *)
Definition with_lastActive (now : Z) (profile : BlobProfile) : BlobProfile :=
  {| userId := userId profile; username := username profile;
     wins := wins profile; losses := losses profile; lastActive := now;
     evolutionLevel := evolutionLevel profile |}.

(** [updateProfile.run(row)] on the rows of the table: INSERT, and on a row
    with the same [userId] (the primary key) set every other column. *)
Fixpoint updateProfile_run (row : BlobProfile) (rows : list BlobProfile)
  : list BlobProfile :=
  match rows with
  | [] => [row]
  | r :: rest =>
      if String.eqb (userId r) (userId row) then row :: rest
      else r :: updateProfile_run row rest
  end.

(** [database.saveProfile], with the value of [Date.now()]. *)
Definition saveProfile (now : Z) (profile : BlobProfile)
    (rows : list BlobProfile) : list BlobProfile :=
  updateProfile_run (with_lastActive now profile) rows.

(** [database.getProfile]: SELECT * FROM profiles WHERE userId = ?, first
    row or [undefined]. *)
Definition getProfile (rows : list BlobProfile) (uid : string)
  : option BlobProfile :=
  List.find (fun r => String.eqb (userId r) uid) rows.

(** A sequence of [saveProfile] calls, each with its time. *)
Definition saveProfiles (calls : list (Z * BlobProfile))
    (rows : list BlobProfile) : list BlobProfile :=
  foldl (fun t c => saveProfile c.1 c.2 t) rows calls.

(** ** A concrete table and record used in the examples *)

Definition empty_db : Db :=
  {| profiles := {["u1"; "u2"]}%string; battles := []; foreign_keys := true |}.

Definition battle_1 : BlobBattleRecord :=
  {| id := "b1"; player1 := "u1"; player2 := "u2"; winner := Some "u1"%string;
     date := 1700000000000; moves := ["m1"; "m2"; "m3"]%string |}.

(** Ten battles of the same players, each played after [battle_1]. *)
Definition later_battles : list BlobBattleRecord :=
  map (fun k : Z * string =>
         {| id := k.2; player1 := "u1"; player2 := "u2";
            winner := Some "u2"%string; date := 1700000000000 + k.1;
            moves := ["n1"; "n2"]%string |})
      [(1, "c1"); (2, "c2"); (3, "c3"); (4, "c4"); (5, "c5"); (6, "c6");
       (7, "c7"); (8, "c8"); (9, "c9"); (10, "c10")]%string%Z.

(** [recordBattle] for each record of a list, in order. *)
Definition recordBattles (db : Db) (l : list BlobBattleRecord) : option Db :=
  foldl (fun o battle =>
           match o with
           | Some d =>
               match recordBattle d battle with
               | Some (d', _) => Some d'
               | None => None
               end
           | None => None
           end) (Some db) l.

End Database.

Module ServerProps.

Import Server.

(** ** Basic facts about the handlers *)

Lemma processMatchmaking_short uuid gcode s :
  length (matchmakingQueue s) < 2 ->
  processMatchmaking uuid gcode s = (s, []).
Proof.
  intros H. unfold processMatchmaking.
  destruct (Nat.ltb_spec (length (matchmakingQueue s)) 2); [done | lia].
Qed.

Lemma processMatchmaking_pair uuid gcode s p1 p2 q :
  matchmakingQueue s = p1 :: p2 :: q ->
  processMatchmaking uuid gcode s =
    (let s2 :=
       store_new uuid
         (fun o => {| oid := o; battleId := uuid; code := gcode;
                      player1 := {| info := p1; wins := 0 |};
                      player2 := Some {| info := p2; wins := 0 |};
                      started := true |}) (set_queue q s) in
     (s2,
      [(ToSocket (socketId p1), MATCH_FOUND uuid (username p2) (appearance p2));
       (ToSocket (socketId p2), MATCH_FOUND uuid (username p1) (appearance p1))]
      ++ broadcastQueueUpdate s2)).
Proof. intros H. unfold processMatchmaking. rewrite H. reflexivity. Qed.

Lemma queue_cases (q : list PlayerInfo) :
  length q < 2 \/ exists p1 p2 r, q = p1 :: p2 :: r.
Proof.
  destruct q as [|p1 [|p2 r]]; simpl; [left; lia | left; lia |].
  right. by exists p1, p2, r.
Qed.

Lemma read_own s k b : battles s !! k = Some b -> read s k = ReadOwn b.
Proof. intros H. unfold read. by rewrite H. Qed.

Lemma read_cases s k :
  (exists b, battles s !! k = Some b /\ read s k = ReadOwn b) \/
  (battles s !! k = None /\
   ((exists b, k = "__proto__" /\ prototype s = Some b /\
               read s k = ReadProto b) \/
    (exists v, read s k = ReadOther v) \/
    read s k = ReadUndefined)).
Proof.
  unfold read. destruct (battles s !! k) as [b|]; [left; by exists b | right].
  split; [done |].
  destruct (String.eqb_spec k "__proto__") as [-> | Hne].
  - destruct (prototype s) as [b|]; [left; by exists b | right; left].
    by eexists.
  - right.
    destruct (match prototype s with
              | Some b => inherited_field b k
              | None => None
              end) as [v|]; [left; by exists v |].
    destruct (existsb (String.eqb k) object_prototype_names);
      [left; by eexists | by right].
Qed.

Lemma SEND_own sock uid bid msg uuid gcode s b :
  battles s !! bid = Some b ->
  handle_message sock (SEND_BATTLE_MESSAGE uid bid msg) uuid gcode s =
  route (fun b' => set_battles (<[bid := b']> (battles s)) s) s uid msg b.
Proof. intros H. simpl. by rewrite (read_own _ _ _ H). Qed.

Lemma LEAVE_own sock uid bid uuid gcode s b :
  battles s !! bid = Some b ->
  handle_message sock (LEAVE_BATTLE uid bid) uuid gcode s =
  (set_battles (delete bid (battles s)) s,
   to_opponent (opponentSocketId uid b) OPPONENT_DISCONNECTED).
Proof. intros H. simpl. by rewrite (read_own _ _ _ H). Qed.

Lemma SEND_cases sock uid bid msg uuid gcode s :
  (exists b, battles s !! bid = Some b /\
     handle_message sock (SEND_BATTLE_MESSAGE uid bid msg) uuid gcode s =
     route (fun b' => set_battles (<[bid := b']> (battles s)) s) s uid msg b)
  \/ (battles s !! bid = None /\
      ((exists b, bid = "__proto__" /\ prototype s = Some b /\
          handle_message sock (SEND_BATTLE_MESSAGE uid bid msg) uuid gcode s =
          route (fun b' => set_prototype b' s) s uid msg b) \/
       handle_message sock (SEND_BATTLE_MESSAGE uid bid msg) uuid gcode s
       = (s, []) \/
       handle_message sock (SEND_BATTLE_MESSAGE uid bid msg) uuid gcode s
       = (s, [(ToSocket sock, ERROR battle_not_found)]))).
Proof.
  destruct (read_cases s bid)
    as [(b & Hb & Hr) | (Hb & [(b & Hk & Hp & Hr) | [(v & Hr) | Hr]])];
    simpl; rewrite Hr.
  - left. by exists b.
  - right. split; [done |]. left. by exists b.
  - right. split; [done |]. right. destruct (truthy v); [by left | by right].
  - right. split; [done |]. right. by right.
Qed.

Lemma LEAVE_cases sock uid bid uuid gcode s :
  (exists b, battles s !! bid = Some b /\
     handle_message sock (LEAVE_BATTLE uid bid) uuid gcode s =
     (set_battles (delete bid (battles s)) s,
      to_opponent (opponentSocketId uid b) OPPONENT_DISCONNECTED))
  \/ (battles s !! bid = None /\
      ((exists b, bid = "__proto__" /\ prototype s = Some b /\
          handle_message sock (LEAVE_BATTLE uid bid) uuid gcode s =
          (s, to_opponent (opponentSocketId uid b) OPPONENT_DISCONNECTED)) \/
       handle_message sock (LEAVE_BATTLE uid bid) uuid gcode s = (s, []))).
Proof.
  destruct (read_cases s bid)
    as [(b & Hb & Hr) | (Hb & [(b & Hk & Hp & Hr) | [(v & Hr) | Hr]])];
    simpl; rewrite Hr.
  - left. by exists b.
  - right. split; [done |]. left. by exists b.
  - right. split; [done |]. by right.
  - right. split; [done |]. by right.
Qed.

Lemma route_cases write s uid msg b :
  (truthy (gameOver msg) && truthy (winner msg) = true /\
   route write s uid msg b =
   (write (recordRoundResult uid (winner msg) b),
    ((ToSocket (socketId (player1 (recordRoundResult uid (winner msg) b))),
      winState (recordRoundResult uid (winner msg) b))
     :: match player2 (recordRoundResult uid (winner msg) b) with
        | Some p2 =>
            [(ToSocket (socketId p2),
              winState (recordRoundResult uid (winner msg) b))]
        | None => []
        end)
    ++ to_opponent
         (opponentSocketId uid (recordRoundResult uid (winner msg) b))
         (BATTLE_MESSAGE msg uid)))
  \/ (truthy (gameOver msg) && truthy (winner msg) = false /\
      route write s uid msg b =
      (s, to_opponent (opponentSocketId uid b) (BATTLE_MESSAGE msg uid))).
Proof.
  unfold route.
  destruct (truthy (gameOver msg) && truthy (winner msg)); [by left | by right].
Qed.

Lemma assign_new_battles k mk s :
  battles (assign_new k mk s) =
  if String.eqb k "__proto__" then battles s
  else <[k := mk (allocated s)]> (battles s).
Proof. unfold assign_new. by destruct (String.eqb k "__proto__"). Qed.

Lemma assign_new_allocated k mk s :
  allocated (assign_new k mk s) = S (allocated s).
Proof. unfold assign_new. by destruct (String.eqb k "__proto__"). Qed.

Lemma assign_new_queue k mk s :
  matchmakingQueue (assign_new k mk s) = matchmakingQueue s.
Proof. unfold assign_new. by destruct (String.eqb k "__proto__"). Qed.

Lemma find_unstarted_Some bid bs k b :
  find_unstarted bid bs = Some (k, b) ->
  bs !! k = Some b /\ battleId b = bid /\ started b = false.
Proof.
  unfold find_unstarted. intros H. apply find_some in H as [Hin Hp].
  apply list_elem_of_In, elem_of_map_to_list in Hin. simpl in Hp.
  apply andb_prop in Hp as [H1 H2].
  apply String.eqb_eq in H1. apply negb_true_iff in H2. done.
Qed.

Lemma find_unstarted_None bid bs k b :
  find_unstarted bid bs = None ->
  bs !! k = Some b -> battleId b = bid -> started b = true.
Proof.
  unfold find_unstarted. intros H Hk Hb.
  apply elem_of_map_to_list, list_elem_of_In in Hk.
  pose proof (find_none _ _ H _ Hk) as Hp. simpl in Hp.
  rewrite Hb, String.eqb_refl in Hp. simpl in Hp.
  by apply negb_false_iff in Hp.
Qed.

Lemma disconnect_battle_sub sock acc kb k b :
  (disconnect_battle sock acc kb).1 !! k = Some b -> acc.1 !! k = Some b.
Proof.
  destruct kb as [id battle]. unfold disconnect_battle.
  destruct (String.eqb (socketId (player1 battle)) sock); simpl.
  - intros H. by apply lookup_delete_Some in H as [_ H].
  - destruct (opt_is socketId (player2 battle) sock); simpl; [| done].
    intros H. by apply lookup_delete_Some in H as [_ H].
Qed.

Lemma disconnect_fold_sub sock l acc k b :
  (foldl (disconnect_battle sock) acc l).1 !! k = Some b ->
  acc.1 !! k = Some b.
Proof.
  revert acc. induction l as [|kb l IH]; intros acc; simpl; [done |].
  intros H. apply IH in H. by apply disconnect_battle_sub in H.
Qed.

Lemma disconnect_fold_gone sock l acc k b :
  (k, b) ∈ l ->
  String.eqb (socketId (player1 b)) sock = true
  \/ opt_is socketId (player2 b) sock = true ->
  (foldl (disconnect_battle sock) acc l).1 !! k = None.
Proof.
  revert acc. induction l as [|kb l IH]; intros acc Hin Hs.
  - by apply elem_of_nil in Hin.
  - apply elem_of_cons in Hin as [<- | Hin]; [| by apply IH].
    simpl.
    destruct ((foldl (disconnect_battle sock)
                 (disconnect_battle sock acc (k, b)) l).1 !! k) as [b'|] eqn:E';
      [| done].
    exfalso. apply disconnect_fold_sub in E'.
    unfold disconnect_battle in E'.
    destruct (String.eqb (socketId (player1 b)) sock).
    + simpl in E'. by rewrite lookup_delete_eq in E'.
    + destruct Hs as [Hs | Hs]; [done |]. rewrite Hs in E'.
      simpl in E'. by rewrite lookup_delete_eq in E'.
Qed.

Lemma disconnect_fold_keep sock l acc k b :
  acc.1 !! k = Some b ->
  (forall b', (k, b') ∈ l ->
     String.eqb (socketId (player1 b')) sock = false
     /\ opt_is socketId (player2 b') sock = false) ->
  (foldl (disconnect_battle sock) acc l).1 !! k = Some b.
Proof.
  revert acc. induction l as [|[id battle] l IH]; intros acc Hk Hl; [done |].
  simpl. apply IH.
  - unfold disconnect_battle.
    destruct (decide (id = k)) as [-> | Hne].
    + destruct (Hl battle) as [-> ->]; [left | done].
    + destruct (String.eqb (socketId (player1 battle)) sock); simpl.
      { by rewrite lookup_delete_ne. }
      destruct (opt_is socketId (player2 battle) sock); simpl; [| done].
      by rewrite lookup_delete_ne.
  - intros b' Hin. apply Hl. by right.
Qed.

Lemma evolves_sub_le s s' :
  allocated s <= allocated s' ->
  (forall k b, battles s' !! k = Some b -> battles s !! k = Some b) ->
  evolves s s'.
Proof.
  intros Ha Hsub. split; [lia |]. exists None. intros k b' Hk. left.
  exists b'. eauto.
Qed.

Lemma evolves_sub s s' :
  allocated s' = allocated s ->
  (forall k b, battles s' !! k = Some b -> battles s !! k = Some b) ->
  evolves s s'.
Proof. intros Ha. apply evolves_sub_le. lia. Qed.

Lemma evolves_same s s' :
  battles s' = battles s -> allocated s' = allocated s -> evolves s s'.
Proof. intros Hb Ha. apply evolves_sub; [done |]. by rewrite Hb. Qed.

Lemma evolves_store_new s s0 k mk :
  battles s0 = battles s -> allocated s0 = allocated s ->
  battleId (mk (allocated s)) = k -> oid (mk (allocated s)) = allocated s ->
  evolves s (store_new k mk s0).
Proof.
  intros Hb Ha Hid Ho. split; [simpl; lia |]. exists (Some k).
  intros k' b'. simpl. rewrite Hb, Ha. intros Hk.
  apply lookup_insert_Some in Hk as [[<- <-] | [Hne Hk]].
  - right. repeat split; [done | lia | done].
  - left. exists b'. eauto.
Qed.

Lemma evolves_update s k b0 b :
  battles s !! k = Some b0 -> oid b = oid b0 -> battleId b = battleId b0 ->
  (started b0 = true -> started b = true) ->
  evolves s (set_battles (<[k := b]> (battles s)) s).
Proof.
  intros H0 Ho Hid Hst. split; [done |]. exists None. intros k' b'. simpl.
  intros Hk. left. apply lookup_insert_Some in Hk as [[<- <-] | [Hne Hk]].
  - by exists b0.
  - exists b'. eauto.
Qed.

Lemma processMatchmaking_evolves uuid gcode s s0 :
  battles s0 = battles s -> allocated s0 = allocated s ->
  evolves s (processMatchmaking uuid gcode s0).1.
Proof.
  intros Hb Ha.
  destruct (queue_cases (matchmakingQueue s0)) as [Hlt | (p1 & p2 & r & Hq)].
  - rewrite processMatchmaking_short by done. by apply evolves_same.
  - rewrite (processMatchmaking_pair _ _ _ _ _ _ Hq). simpl.
    by apply evolves_store_new.
Qed.

Lemma recordRoundResult_oid uid w b : oid (recordRoundResult uid w b) = oid b.
Proof.
  unfold recordRoundResult.
  repeat (case_match; simpl; try done).
Qed.

Lemma recordRoundResult_battleId uid w b :
  battleId (recordRoundResult uid w b) = battleId b.
Proof.
  unfold recordRoundResult.
  repeat (case_match; simpl; try done).
Qed.

Lemma recordRoundResult_started uid w b :
  started (recordRoundResult uid w b) = started b.
Proof.
  unfold recordRoundResult.
  repeat (case_match; simpl; try done).
Qed.

Lemma evolves_assign_new s k mk :
  battleId (mk (allocated s)) = k -> oid (mk (allocated s)) = allocated s ->
  evolves s (assign_new k mk s).
Proof.
  intros Hid Ho. unfold assign_new.
  destruct (String.eqb k "__proto__").
  - apply evolves_sub_le; simpl; [lia | done].
  - by apply evolves_store_new.
Qed.

Lemma route_evolves s bid b uid msg :
  battles s !! bid = Some b ->
  evolves s (route (fun b' => set_battles (<[bid := b']> (battles s)) s)
               s uid msg b).1.
Proof.
  intros Hb. destruct (route_cases
    (fun b' => set_battles (<[bid := b']> (battles s)) s) s uid msg b)
    as [[_ ->] | [_ ->]]; simpl.
  - eapply evolves_update; [done | | |].
    + apply recordRoundResult_oid.
    + apply recordRoundResult_battleId.
    + by rewrite recordRoundResult_started.
  - by apply evolves_same.
Qed.

Lemma route_proto_battles s b uid msg :
  battles (route (fun b' => set_prototype b' s) s uid msg b).1 = battles s /\
  allocated (route (fun b' => set_prototype b' s) s uid msg b).1 = allocated s
  /\ matchmakingQueue (route (fun b' => set_prototype b' s) s uid msg b).1
     = matchmakingQueue s.
Proof.
  by destruct (route_cases (fun b' => set_prototype b' s) s uid msg b)
    as [[_ ->] | [_ ->]].
Qed.

Lemma handle_message_evolves sock m uuid gcode s :
  evolves s (handle_message sock m uuid gcode s).1.
Proof.
  destruct m as [uid uname app | uid | | uid bid uname app | uid bid uname app
                | uid bid msg | uid bid | | ty]; simpl.
  - destruct (processMatchmaking uuid gcode _) as [s2 out] eqn:E.
    change s2 with (s2, out).1. rewrite <- E.
    by apply processMatchmaking_evolves.
  - by apply evolves_same.
  - by apply evolves_same.
  - by apply evolves_assign_new.
  - destruct (find_unstarted bid (battles s)) as [[k b]|] eqn:E; simpl.
    + apply find_unstarted_Some in E as (Hk & _ & _).
      by eapply evolves_update.
    + by apply evolves_same.
  - change (evolves s
              (handle_message sock (SEND_BATTLE_MESSAGE uid bid msg)
                 uuid gcode s).1).
    destruct (SEND_cases sock uid bid msg uuid gcode s)
      as [(b & Hb & ->) | (Hb & [(b & _ & _ & ->) | [-> | ->]])].
    + by apply route_evolves.
    + destruct (route_proto_battles s b uid msg) as (H1 & H2 & _).
      by apply evolves_same.
    + by apply evolves_same.
    + by apply evolves_same.
  - change (evolves s
              (handle_message sock (LEAVE_BATTLE uid bid) uuid gcode s).1).
    destruct (LEAVE_cases sock uid bid uuid gcode s)
      as [(b & Hb & ->) | (Hb & [(b & _ & _ & ->) | ->])].
    + apply evolves_sub; [done |]. simpl. intros k b' Hk.
      by apply lookup_delete_Some in Hk as [_ Hk].
    + by apply evolves_same.
    + by apply evolves_same.
  - by apply evolves_same.
  - by apply evolves_same.
Qed.

Lemma handle_disconnect_battles sock s :
  (handle_disconnect sock s).1 =
  set_battles
    (foldl (disconnect_battle sock) (battles s, []) (map_to_list (battles s))).1
    (set_queue (List.filter (fun p => negb (String.eqb (socketId p) sock))
                  (matchmakingQueue s)) s).
Proof.
  unfold handle_disconnect.
  destruct (List.find _ (matchmakingQueue s)) as [p|] eqn:E; simpl.
  - by destruct (foldl _ _ _) as [bs out2].
  - destruct (foldl _ _ _) as [bs out2]. simpl.
    unfold set_battles, set_queue. simpl. f_equal.
    symmetry. apply forallb_filter_id, forallb_forall. intros p Hp.
    by rewrite (find_none _ _ E p Hp).
Qed.

Lemma step_evolves s e : evolves s (step s e).1.
Proof.
  destruct e as [sock | sock m uuid gcode | sock | uuid gcode]; simpl.
  - by apply evolves_same.
  - apply handle_message_evolves.
  - rewrite handle_disconnect_battles. apply evolves_sub; [done |].
    simpl. intros k b Hk. by apply disconnect_fold_sub in Hk.
  - by apply processMatchmaking_evolves.
Qed.

Lemma Inv_initial : Inv initial.
Proof. split; simpl; intros *; by rewrite lookup_empty. Qed.

Lemma evolves_Inv s s' : Inv s -> evolves s s' -> Inv s'.
Proof.
  intros [Hk Hlt Hinj] [Hle [fresh Hev]]. split.
  - intros k b' H. destruct (Hev _ _ H) as [(b & Hb & _ & Hid & _) | (_ & _ & _ & ?)];
      [| done].
    rewrite Hid. by apply Hk in Hb.
  - intros k b' H. destruct (Hev _ _ H) as [(b & Hb & Ho & _) | (_ & Ho & ? & _)].
    + apply Hlt in Hb. lia.
    + lia.
  - intros k1 k2 b1 b2 H1 H2 Ho.
    destruct (Hev _ _ H1) as [(c1 & Hc1 & Ho1 & _) | (Hf1 & Ho1 & _)],
             (Hev _ _ H2) as [(c2 & Hc2 & Ho2 & _) | (Hf2 & Ho2 & _)].
    + eapply Hinj; [done | done | congruence].
    + apply Hlt in Hc1. lia.
    + apply Hlt in Hc2. lia.
    + congruence.
Qed.

Lemma reachable_Inv s : reachable s -> Inv s.
Proof.
  induction 1 as [|s e _ IH]; [apply Inv_initial |].
  eapply evolves_Inv; [done | apply step_evolves].
Qed.

Lemma reachable_run s es : reachable s -> reachable (run s es).
Proof.
  revert s. induction es as [|e es IH]; intros s Hs; [done |].
  simpl. apply IH. by constructor.
Qed.

(** ** The queue *)



Lemma filter_length_le {A} (P : A -> bool) (l : list A) :
  length (List.filter P l) <= length l.
Proof.
  induction l as [|x l IH]; simpl; [done |]. destruct (P x); simpl; lia.
Qed.



Lemma enqueue_length p q : length (enqueue p q) <= S (length q).
Proof.
  unfold enqueue. rewrite length_app. simpl.
  pose proof (filter_length_le
                (fun e => negb (String.eqb (userId e) (userId p))) q). lia.
Qed.

Lemma processMatchmaking_queue uuid gcode s :
  matchmakingQueue (processMatchmaking uuid gcode s).1 =
  if (length (matchmakingQueue s) <? 2)%nat then matchmakingQueue s
  else drop 2 (matchmakingQueue s).
Proof.
  destruct (queue_cases (matchmakingQueue s)) as [Hlt | (p1 & p2 & r & Hq)].
  - rewrite processMatchmaking_short by done.
    by destruct (Nat.ltb_spec (length (matchmakingQueue s)) 2); [| lia].
  - rewrite (processMatchmaking_pair _ _ _ _ _ _ Hq). rewrite Hq. reflexivity.
Qed.


Lemma route_queue write s uid msg b :
  (forall b', matchmakingQueue (write b') = matchmakingQueue s) ->
  matchmakingQueue (route write s uid msg b).1 = matchmakingQueue s.
Proof.
  intros H.
  destruct (route_cases write s uid msg b) as [[_ ->] | [_ ->]]; simpl;
    [apply H | done].
Qed.

Lemma battle_message_queue sock m uuid gcode s :
  (forall uid uname app, m <> JOIN_QUEUE uid uname app) ->
  (forall uid, m <> LEAVE_QUEUE uid) ->
  matchmakingQueue (handle_message sock m uuid gcode s).1 = matchmakingQueue s.
Proof.
  intros H1 H2.
  destruct m as [uid uname app | uid | | uid bid uname app | uid bid uname app
                | uid bid msg | uid bid | | ty].
  - by destruct (H1 uid uname app).
  - by destruct (H2 uid).
  - done.
  - simpl. apply assign_new_queue.
  - simpl. by destruct (find_unstarted bid (battles s)) as [[k b]|].
  - destruct (SEND_cases sock uid bid msg uuid gcode s)
      as [(b & Hb & ->) | (Hb & [(b & _ & _ & ->) | [-> | ->]])];
      try done; by apply route_queue.
  - by destruct (LEAVE_cases sock uid bid uuid gcode s)
      as [(b & Hb & ->) | (Hb & [(b & _ & _ & ->) | ->])].
  - done.
  - done.
Qed.

Lemma JOIN_QUEUE_state sock uid uname app uuid gcode s :
  (handle_message sock (JOIN_QUEUE uid uname app) uuid gcode s).1 =
  (processMatchmaking uuid gcode
     (set_queue (enqueue (new_player uid uname sock app) (matchmakingQueue s))
        s)).1.
Proof. simpl. by destruct (processMatchmaking uuid gcode _). Qed.


Lemma step_queue_short s e :
  length (matchmakingQueue s) <= 1 ->
  length (matchmakingQueue (step s e).1) <= 1.
Proof.
  intros H.
  destruct e as [sock | sock m uuid gcode | sock | uuid gcode]; simpl;
    [done | | |].
  - destruct m as [uid uname app | uid | | uid bid uname app | uid bid uname app
                  | uid bid msg | uid bid | | ty];
      [| | rewrite battle_message_queue by done; done ..].
    + rewrite JOIN_QUEUE_state, processMatchmaking_queue. simpl.
      pose proof (enqueue_length (new_player uid uname sock app)
                    (matchmakingQueue s)) as Hl.
      destruct (Nat.ltb_spec (length (enqueue (new_player uid uname sock app)
                                        (matchmakingQueue s))) 2);
        [lia |].
      rewrite length_drop. lia.
    + simpl. pose proof (filter_length_le
                    (fun p => negb (String.eqb (userId p) uid))
                    (matchmakingQueue s)). lia.
  - rewrite handle_disconnect_battles. simpl.
    pose proof (filter_length_le
                  (fun p => negb (String.eqb (socketId p) sock))
                  (matchmakingQueue s)). lia.
  - by rewrite processMatchmaking_short by lia.
Qed.

Lemma reachable_queue_short s :
  reachable s -> length (matchmakingQueue s) <= 1.
Proof.
  induction 1 as [|s e _ IH]; [simpl; lia | by apply step_queue_short].
Qed.

(** ** Round results *)

Lemma add_win_wins p : wins (add_win p) = (wins p + 1)%Z.
Proof. reflexivity. Qed.

Lemma SEND_game_over_state sock uid bid msg uuid gcode s b :
  battles s !! bid = Some b ->
  truthy (gameOver msg) = true -> truthy (winner msg) = true ->
  (handle_message sock (SEND_BATTLE_MESSAGE uid bid msg) uuid gcode s).1 =
  set_battles (<[bid := recordRoundResult uid (winner msg) b]> (battles s)) s.
Proof.
  intros Hb Hg Hw. rewrite (SEND_own _ _ _ _ _ _ _ _ Hb). unfold route.
  by rewrite Hg, Hw.
Qed.

(** C1.  A SEND_BATTLE_MESSAGE flagged game-over whose [syncData.winner]
    names slot 1 (resp. slot 2) adds one to that slot's [wins] exactly when
    the reporting [userId] is that slot's own [userId]; a report from any
    other identity leaves the session record, hence both counters, as they
    were.  A winner that names no slot changes nothing, and no other session
    is touched. *)
Theorem win_credited_only_by_own_slot sock uid bid msg uuid gcode s b :
  battles s !! bid = Some b ->
  truthy (gameOver msg) = true ->
  truthy (winner msg) = true ->
  exists b',
    battles (handle_message sock (SEND_BATTLE_MESSAGE uid bid msg)
               uuid gcode s).1 !! bid = Some b' /\
    (winner msg = JNum 1 ->
       (wins (player1 b') = (wins (player1 b) + 1)%Z
        <-> uid = userId (player1 b)) /\
       (uid <> userId (player1 b) -> b' = b) /\
       player2 b' = player2 b) /\
    (winner msg = JNum 2 ->
       forall p2, player2 b = Some p2 ->
         exists p2', player2 b' = Some p2' /\
           ((wins p2' = (wins p2 + 1)%Z <-> uid = userId p2) /\
            (uid <> userId p2 -> b' = b) /\
            player1 b' = player1 b)) /\
    (winner msg <> JNum 1 -> winner msg <> JNum 2 -> b' = b) /\
    (forall k, k <> bid ->
       battles (handle_message sock (SEND_BATTLE_MESSAGE uid bid msg)
                  uuid gcode s).1 !! k = battles s !! k).
Proof.
  intros Hb Hg Hw. rewrite (SEND_game_over_state _ _ _ _ _ _ _ _ Hb Hg Hw).
  simpl. exists (recordRoundResult uid (winner msg) b).
  split; [by rewrite lookup_insert_eq |].
  split; [| split; [| split]].
  - intros ->. unfold recordRoundResult. simpl.
    destruct (String.eqb_spec uid (userId (player1 b))) as [Heq | Hne]; simpl.
    + split; [done |]. split; [done | done].
    + split; [| done]. split; [lia | done].
  - intros -> p2 Hp2. unfold recordRoundResult. simpl. rewrite Hp2. simpl.
    destruct (String.eqb_spec (userId p2) uid) as [Heq | Hne]; simpl.
    + exists (add_win p2). split; [done |]. split; [done |]. split; [done | done].
    + exists p2. split; [done |]. split; [| done]. split; [lia | done].
  - intros H1 H2. unfold recordRoundResult.
    destruct (winner msg) as [| | | n | |]; simpl; try done.
    destruct (Z.eqb_spec n 1) as [-> |]; [done |].
    destruct (Z.eqb_spec n 2) as [-> |]; [done |]. done.
  - intros k Hk. by rewrite lookup_insert_ne.
Qed.

(** ** Leaving a session *)

(** C10.  A LEAVE_BATTLE for a session of the directory, sent with a
    [userId] that is neither slot's, deletes the session and emits nothing:
    no OPPONENT_DISCONNECTED reaches either slot. *)
Theorem leave_by_stranger_deletes_silently sock uid bid uuid gcode s b :
  battles s !! bid = Some b ->
  uid <> userId (player1 b) ->
  (forall p2, player2 b = Some p2 -> uid <> userId p2) ->
  handle_message sock (LEAVE_BATTLE uid bid) uuid gcode s =
    (set_battles (delete bid (battles s)) s, []) /\
  battles (handle_message sock (LEAVE_BATTLE uid bid) uuid gcode s).1 !! bid
    = None /\
  (forall t, (t, OPPONENT_DISCONNECTED)
             ∉ (handle_message sock (LEAVE_BATTLE uid bid) uuid gcode s).2).
Proof.
  intros Hb H1 H2.
  assert (handle_message sock (LEAVE_BATTLE uid bid) uuid gcode s =
          (set_battles (delete bid (battles s)) s, [])) as E.
  { rewrite (LEAVE_own _ _ _ _ _ _ _ Hb). f_equal. unfold opponentSocketId.
    destruct (String.eqb_spec (userId (player1 b)) uid) as [Heq | _];
      [by subst |].
    destruct (player2 b) as [p2|] eqn:Hp2; simpl; [| done].
    destruct (String.eqb_spec (userId p2) uid) as [Heq | _]; [| done].
    by destruct (H2 p2). }
  rewrite E. simpl. split; [done |]. split; [apply lookup_delete_eq |].
  intros t. apply not_elem_of_nil.
Qed.

Lemma leave_by_stranger_deletes_silently_witness :
  let s := (handle_message "sockA" (CREATE_BATTLE "u1" "ABC123" None JUndefined)
              "" "" initial).1 in
  battles (handle_message "sockC" (LEAVE_BATTLE "u3" "ABC123") "" "" s).1
    !! "ABC123" = None.
Proof.
  intros s.
  refine (proj1 (proj2 (leave_by_stranger_deletes_silently
                          "sockC" "u3" "ABC123" "" "" s
                          (Build_Battle 0 "ABC123" "ABC123"
                             (Build_Player
                                (new_player "u1" None "sockA" JUndefined) 0)
                             None false) _ _ _))).
  - reflexivity.
  - discriminate.
  - discriminate.
Defined.

Lemma win_credited_only_by_own_slot_witness :
  exists b',
    battles (handle_message "sockA"
               (SEND_BATTLE_MESSAGE "u1" "ABC123" game_over_1) "" ""
               started_ABC123).1 !! "ABC123" = Some b' /\
    wins (player1 b') = 1%Z.
Proof.
  destruct (win_credited_only_by_own_slot
              "sockA" "u1" "ABC123" game_over_1 "" "" started_ABC123
              (Build_Battle 0 "ABC123" "ABC123"
                 (Build_Player (new_player "u1" None "sockA" JUndefined) 0)
                 (Some (Build_Player
                          (new_player "u2" None "sockB" JUndefined) 0))
                 true)
              ltac:(vm_compute; reflexivity) eq_refl eq_refl)
    as (b' & Hb' & H1 & _).
  exists b'. split; [exact Hb' |].
  destruct (H1 eq_refl) as [Hiff _]. apply Hiff. reflexivity.
Defined.

(** ** Pairing *)

(** C3.  [processMatchmaking] does nothing at all when fewer than two
    players wait; otherwise it takes exactly the two oldest entries, in
    arrival order, into a new started session: the queue is the old one
    without its first two entries and is shorter by exactly two.  On a queue
    with one entry per [userId] neither paired player is still queued.  A
    second invocation right after a pairing finds fewer than two entries and
    is a no-op unless at least four players were waiting. *)
Theorem processMatchmaking_dequeues_pair uuid gcode s :
  (length (matchmakingQueue s) < 2 ->
     processMatchmaking uuid gcode s = (s, [])) /\
  (2 <= length (matchmakingQueue s) ->
     exists p1 p2,
       let s' := (processMatchmaking uuid gcode s).1 in
       matchmakingQueue s = p1 :: p2 :: matchmakingQueue s' /\
       length (matchmakingQueue s') + 2 = length (matchmakingQueue s) /\
       (exists b, battles s' !! uuid = Some b /\
                  info (player1 b) = p1 /\
                  (info <$> player2 b) = Some p2 /\ started b = true) /\
       (NoDup (userId <$> matchmakingQueue s) ->
          (userId p1 ∉ userId <$> matchmakingQueue s') /\
          (userId p2 ∉ userId <$> matchmakingQueue s') /\
          (p1 ∉ matchmakingQueue s') /\ (p2 ∉ matchmakingQueue s')) /\
       (length (matchmakingQueue s) < 4 ->
          forall uuid' gcode',
            processMatchmaking uuid' gcode' s' = (s', []))).
Proof.
  split; [apply processMatchmaking_short |].
  intros Hlen.
  destruct (queue_cases (matchmakingQueue s)) as [Hlt | (p1 & p2 & r & Hq)];
    [lia |].
  exists p1, p2. rewrite (processMatchmaking_pair _ _ _ _ _ _ Hq). simpl.
  split; [done |]. split; [rewrite Hq; simpl; lia |].
  split; [| split].
  - eexists. rewrite lookup_insert_eq. done.
  - rewrite Hq. simpl. intros Hnd.
    apply NoDup_cons in Hnd as [Hp1 Hnd]. apply NoDup_cons in Hnd as [Hp2 Hnd].
    assert (userId p1 ∉ userId <$> r) as Hu1.
    { intros H. apply Hp1. by right. }
    split; [done |]. split; [done |].
    split; [intros H; apply Hu1 | intros H; apply Hp2];
      by apply list_elem_of_fmap_2.
  - rewrite Hq. simpl. intros H4 uuid' gcode'.
    apply processMatchmaking_short. simpl. lia.
Qed.

Lemma processMatchmaking_dequeues_pair_witness :
  exists p1 p2,
    matchmakingQueue two_waiting
    = p1 :: p2 :: matchmakingQueue (processMatchmaking "id-1" "K3Y9QZ"
                                      two_waiting).1.
Proof.
  destruct (proj2 (processMatchmaking_dequeues_pair "id-1" "K3Y9QZ" two_waiting)
              ltac:(simpl; lia))
    as (p1 & p2 & H & _).
  exists p1, p2. exact H.
Defined.

(** ** One entry per user, one entry per connection *)


(** C8.  In every reachable state no two queue entries carry the same
    connection handle: between two events the queue holds at most one entry,
    because JOIN_QUEUE, the only handler that adds one, pairs as soon as two
    are waiting. *)
Theorem queue_one_entry_per_connection s :
  reachable s ->
  NoDup (socketId <$> matchmakingQueue s) /\
  length (matchmakingQueue s) <= 1.
Proof.
  intros H. apply reachable_queue_short in H. split; [| done].
  destruct (matchmakingQueue s) as [|p [|p' q]]; simpl in *;
    [constructor | apply NoDup_singleton | lia].
Qed.

Lemma queue_one_entry_per_connection_witness :
  NoDup (socketId <$> matchmakingQueue
           (step initial
              (Message "sockA" (JOIN_QUEUE "u1" None JUndefined) "id-1"
                 "K3Y9QZ")).1).
Proof.
  exact (proj1 (queue_one_entry_per_connection _
                  (reachable_step _ _ reachable_initial))).
Defined.

(** Inside one JOIN_QUEUE the broadcast queue can list one connection twice:
    the second join of a socket under another [userId] is appended before the
    pairing empties the queue, and the socket is paired with itself. *)
Example same_socket_broadcast_then_paired :
  let s1 := (step initial (Message "sockA" (JOIN_QUEUE "u1" None JUndefined)
                             "id-0" "AAAAAA")).1 in
  let r := step s1 (Message "sockA" (JOIN_QUEUE "u2" None JUndefined)
                      "id-1" "K3Y9QZ") in
  head r.2 =
    Some (ToAll, QUEUE_UPDATE [new_player "u1" None "sockA" JUndefined;
                               new_player "u2" None "sockA" JUndefined]) /\
  matchmakingQueue r.1 = [].
Proof. vm_compute. split; reflexivity. Qed.

(** ** Joining by code *)

Lemma find_unstarted_key s bid b :
  Inv s -> battles s !! bid = Some b -> started b = false ->
  find_unstarted bid (battles s) = Some (bid, b).
Proof.
  intros HI Hb Hst.
  destruct (find_unstarted bid (battles s)) as [[k b0]|] eqn:E.
  - apply find_unstarted_Some in E as (Hk & Hid & _).
    pose proof (inv_keys _ HI _ _ Hk) as Hkey.
    assert (k = bid) as -> by congruence. congruence.
  - pose proof (inv_keys _ HI _ _ Hb) as Hkey.
    pose proof (find_unstarted_None _ _ _ _ E Hb Hkey). congruence.
Qed.

Lemma find_unstarted_absent s bid :
  Inv s -> battles s !! bid = None -> find_unstarted bid (battles s) = None.
Proof.
  intros HI Hb.
  destruct (find_unstarted bid (battles s)) as [[k b0]|] eqn:E; [| done].
  apply find_unstarted_Some in E as (Hk & Hid & _).
  pose proof (inv_keys _ HI _ _ Hk) as Hkey. congruence.
Qed.

Lemma find_unstarted_started s bid b :
  Inv s -> battles s !! bid = Some b -> started b = true ->
  find_unstarted bid (battles s) = None.
Proof.
  intros HI Hb Hst.
  destruct (find_unstarted bid (battles s)) as [[k b0]|] eqn:E; [| done].
  apply find_unstarted_Some in E as (Hk & Hid & Hst0).
  pose proof (inv_keys _ HI _ _ Hk) as Hkey.
  assert (k = bid) as -> by congruence. congruence.
Qed.

Lemma run_cons s e es : run s (e :: es) = run (step s e).1 es.
Proof. reflexivity. Qed.

(** Over any number of events, a session object of the final state is a
    session object of the first state, with a [started] flag that did not go
    back, or it was allocated in between. *)
Lemma run_evolves s es k' b' :
  Inv s -> battles (run s es) !! k' = Some b' ->
  (exists b, battles s !! k' = Some b /\ oid b' = oid b /\
             (started b = true -> started b' = true))
  \/ allocated s <= oid b'.
Proof.
  revert s. induction es as [|e es IH]; intros s HI H.
  - left. by exists b'.
  - rewrite run_cons in H.
    pose proof (step_evolves s e) as Hev.
    pose proof (evolves_Inv _ _ HI Hev) as HI1.
    destruct Hev as [Hle [fresh Hev]].
    destruct (IH _ HI1 H) as [(b1 & Hb1 & Ho1 & Hst1) | Hge]; [| right; lia].
    destruct (Hev _ _ Hb1) as [(b & Hb & Ho & _ & Hst) | (_ & Ho & _)].
    + left. exists b. split; [done |]. split; [congruence | tauto].
    + right. lia.
Qed.

(** Once a session object of a reachable state is started, a JOIN_BATTLE
    with its join key, sent in that state, is answered with the error
    "Invalid battle code or battle already started" alone, to the sender, and
    changes nothing; and after any further sequence of events that session
    object, as long as it is in the directory, sits under the same key and is
    still started.  Nothing is said of another session object stored under
    the same key later. *)
Theorem started_is_final s k b :
  reachable s ->
  battles s !! k = Some b ->
  started b = true ->
  (forall sock uid uname app uuid gcode,
     handle_message sock (JOIN_BATTLE uid (battleId b) uname app) uuid gcode s
     = (s, [(ToSocket sock, ERROR invalid_code)])) /\
  (forall es k' b',
     battles (run s es) !! k' = Some b' -> oid b' = oid b ->
     k' = k /\ started b' = true).
Proof.
  intros Hr Hb Hst. pose proof (reachable_Inv _ Hr) as HI. split.
  - intros. simpl. rewrite (inv_keys _ HI _ _ Hb).
    by rewrite (find_unstarted_started _ _ _ HI Hb Hst).
  - intros es k' b' H' Ho.
    destruct (run_evolves _ _ _ _ HI H') as [(b0 & Hb0 & Ho0 & Hst0) | Hge].
    + assert (k' = k) as ->.
      { eapply (inv_oid_inj _ HI); [done | done | congruence]. }
      split; [done |]. apply Hst0. congruence.
    + pose proof (inv_oid_lt _ HI _ _ Hb). lia.
Qed.

Lemma reachable_started_ABC123 : reachable started_ABC123.
Proof. apply reachable_run, reachable_initial. Qed.

Lemma started_is_final_witness :
  handle_message "sockC" (JOIN_BATTLE "u3" "ABC123" None JUndefined) "" ""
    started_ABC123
  = (started_ABC123, [(ToSocket "sockC", ERROR invalid_code)]).
Proof.
  exact (proj1 (started_is_final started_ABC123 "ABC123"
                  (Build_Battle 0 "ABC123" "ABC123"
                     (Build_Player
                        (new_player "u1" None "sockA" JUndefined) 0)
                     (Some (Build_Player
                              (new_player "u2" None "sockB" JUndefined) 0))
                     true)
                  reachable_started_ABC123
                  ltac:(vm_compute; reflexivity) eq_refl)
           "sockC" "u3" None JUndefined "" "").
Defined.

(** C6, as the code has it.  In a reachable state JOIN_BATTLE answers with
    one and the same error, "Invalid battle code or battle already started",
    when no session has the code and when the session with that code is
    already started, and changes nothing; on an unstarted session it fills
    slot 2 with the joiner, sets [started], and sends MATCH_FOUND to slot 1's
    connection with the joiner's name and appearance and to the joiner with
    slot 1's name and appearance. *)
Theorem join_battle_outcomes s sock uid bid uname app uuid gcode :
  reachable s ->
  (battles s !! bid = None ->
     handle_message sock (JOIN_BATTLE uid bid uname app) uuid gcode s
     = (s, [(ToSocket sock, ERROR invalid_code)])) /\
  (forall b, battles s !! bid = Some b -> started b = true ->
     handle_message sock (JOIN_BATTLE uid bid uname app) uuid gcode s
     = (s, [(ToSocket sock, ERROR invalid_code)])) /\
  (forall b, battles s !! bid = Some b -> started b = false ->
     let joiner := new_player uid uname sock app in
     handle_message sock (JOIN_BATTLE uid bid uname app) uuid gcode s
     = (set_battles
          (<[bid := {| oid := oid b; battleId := battleId b; code := code b;
                       player1 := player1 b;
                       player2 := Some {| info := joiner; wins := 0 |};
                       started := true |}]> (battles s)) s,
        [(ToSocket (socketId (player1 b)),
          MATCH_FOUND bid (username joiner) (appearance joiner));
         (ToSocket sock,
          MATCH_FOUND bid (username (player1 b)) (appearance (player1 b)))])).
Proof.
  intros Hr. pose proof (reachable_Inv _ Hr) as HI. split; [| split].
  - intros Hb. simpl. by rewrite (find_unstarted_absent _ _ HI Hb).
  - intros b Hb Hst. simpl. by rewrite (find_unstarted_started _ _ _ HI Hb Hst).
  - intros b Hb Hst. simpl. rewrite (find_unstarted_key _ _ _ HI Hb Hst).
    unfold with_started, with_player2. simpl.
    by rewrite (inv_keys _ HI _ _ Hb).
Qed.

Lemma join_battle_outcomes_witness :
  handle_message "sockB" (JOIN_BATTLE "u2" "ABC123" None JUndefined) "" ""
    initial
  = (initial, [(ToSocket "sockB", ERROR invalid_code)]).
Proof.
  exact (proj1 (join_battle_outcomes initial "sockB" "u2" "ABC123" None
                  JUndefined "" "" reachable_initial) eq_refl).
Defined.

(** The answer to a JOIN_BATTLE for a code that no session has and the answer
    for the code of a started session are the same event list. *)
Lemma join_errors_not_distinct :
  battles initial !! "ABC123" = None /\
  (exists b, battles started_ABC123 !! "ABC123" = Some b /\ started b = true) /\
  (handle_message "sockC" (JOIN_BATTLE "u3" "ABC123" None JUndefined) "" ""
     initial).2
  = (handle_message "sockC" (JOIN_BATTLE "u3" "ABC123" None JUndefined) "" ""
       started_ABC123).2.
Proof.
  split; [reflexivity |]. split; [| vm_compute; reflexivity].
  eexists. split; [vm_compute; reflexivity | reflexivity].
Qed.

Lemma processMatchmaking_absent uuid gcode s bid :
  uuid <> bid -> battles s !! bid = None ->
  battles (processMatchmaking uuid gcode s).1 !! bid = None.
Proof.
  intros Hne Hb.
  destruct (queue_cases (matchmakingQueue s)) as [Hlt | (p1 & p2 & r & Hq)].
  - by rewrite processMatchmaking_short.
  - rewrite (processMatchmaking_pair _ _ _ _ _ _ Hq). simpl.
    by rewrite lookup_insert_ne.
Qed.

Lemma absent_stays_absent s e bid :
  battles s !! bid = None -> ~ creates bid e ->
  battles (step s e).1 !! bid = None.
Proof.
  intros Hb Hc.
  destruct e as [sock | sock m uuid gcode | sock | uuid gcode]; simpl in *.
  - done.
  - destruct m as [uid uname app | uid | | uid b uname app | uid b uname app
                  | uid b msg | uid b | | ty];
      [| simpl; try done ..].
    + rewrite JOIN_QUEUE_state. by apply processMatchmaking_absent.
    + rewrite assign_new_battles.
      destruct (String.eqb b "__proto__"); [done | by rewrite lookup_insert_ne].
    + destruct (find_unstarted b (battles s)) as [[k b0]|] eqn:E; simpl;
        [| done].
      apply find_unstarted_Some in E as (Hk & _ & _).
      rewrite lookup_insert_ne; [done | congruence].
    + change (battles (handle_message sock (SEND_BATTLE_MESSAGE uid b msg)
                         uuid gcode s).1 !! bid = None).
      destruct (SEND_cases sock uid b msg uuid gcode s)
        as [(b0 & Hb0 & ->) | (_ & [(b0 & _ & _ & ->) | [-> | ->]])];
        try done.
      * destruct (route_cases
                    (fun b' => set_battles (<[b := b']> (battles s)) s)
                    s uid msg b0) as [[_ ->] | [_ ->]]; simpl; [| done].
        rewrite lookup_insert_ne; [done | congruence].
      * by destruct (route_proto_battles s b0 uid msg) as (-> & _).
    + change (battles (handle_message sock (LEAVE_BATTLE uid b)
                         uuid gcode s).1 !! bid = None).
      destruct (LEAVE_cases sock uid b uuid gcode s)
        as [(b0 & Hb0 & ->) | (_ & [(b0 & _ & _ & ->) | ->])]; try done.
      simpl. destruct (decide (b = bid)) as [-> | Hne];
        [apply lookup_delete_eq | by rewrite lookup_delete_ne].
  - rewrite handle_disconnect_battles. simpl.
    destruct ((foldl (disconnect_battle sock) (battles s, [])
                 (map_to_list (battles s))).1 !! bid) as [b|] eqn:E; [| done].
    apply disconnect_fold_sub in E. simpl in E. congruence.
  - by apply processMatchmaking_absent.
Qed.

Lemma inherited_field_None b k :
  k ∉ session_field_names -> inherited_field b k = None.
Proof.
  intros Hk. unfold session_field_names in Hk.
  rewrite !elem_of_cons, elem_of_nil in Hk. unfold inherited_field.
  destruct (String.eqb_spec k "battleId"); [tauto |].
  destruct (String.eqb_spec k "code"); [tauto |].
  destruct (String.eqb_spec k "player1"); [tauto |].
  destruct (String.eqb_spec k "player2"); [tauto |].
  destruct (String.eqb_spec k "started"); [tauto | done].
Qed.

Lemma object_prototype_name k :
  k ∉ object_prototype_names ->
  existsb (String.eqb k) object_prototype_names = false.
Proof.
  intros Hn. destruct (existsb _ _) eqn:E; [| done].
  apply existsb_exists in E as (x & Hx & Heq). apply String.eqb_eq in Heq.
  subst x. by apply list_elem_of_In in Hx.
Qed.

Lemma read_undefined s k :
  battles s !! k = None -> k <> "__proto__" ->
  k ∉ object_prototype_names ->
  prototype s = None \/ k ∉ session_field_names ->
  read s k = ReadUndefined.
Proof.
  intros Hb Hk Hn Hp. unfold read. rewrite Hb.
  destruct (String.eqb_spec k "__proto__") as [? | _]; [done |].
  rewrite (object_prototype_name k Hn).
  destruct (prototype s) as [b|]; [| done].
  destruct Hp as [[=] | Hp]. by rewrite inherited_field_None.
Qed.

(** C5, as the code has it.  LEAVE_BATTLE removes the session stored under
    the id it names, and the disconnect of the connection of either slot
    removes that session.  While no session is stored under the id, which
    stays so until an event stores one under it again, a JOIN_BATTLE is
    answered "Invalid battle code or battle already started"; and where
    [battles[id]] is undefined, as it is for every id that is not a property
    name of [Object.prototype] nor, once a session object was made the
    prototype of [battles], a field name of a session, a
    SEND_BATTLE_MESSAGE is answered "Battle not found" and a LEAVE_BATTLE is
    ignored without any event, neither ending in an exception; none of the
    three changes the state. *)
Theorem leave_removes_session s bid :
  reachable s ->
  (forall sock uid uuid gcode,
     battles (handle_message sock (LEAVE_BATTLE uid bid) uuid gcode s).1 !! bid
     = None) /\
  (forall sock b,
     battles s !! bid = Some b ->
     socketId (player1 b) = sock
     \/ (exists p2, player2 b = Some p2 /\ socketId p2 = sock) ->
     battles (handle_disconnect sock s).1 !! bid = None) /\
  (battles s !! bid = None ->
     (forall e, ~ creates bid e -> battles (step s e).1 !! bid = None) /\
     (forall sock uid uname app uuid gcode,
        handle_message sock (JOIN_BATTLE uid bid uname app) uuid gcode s
        = (s, [(ToSocket sock, ERROR invalid_code)])) /\
     (bid <> "__proto__" -> bid ∉ object_prototype_names ->
      prototype s = None \/ bid ∉ session_field_names ->
      read s bid = ReadUndefined) /\
     (read s bid = ReadUndefined ->
      forall sock uid msg uuid gcode,
        handle_message sock (SEND_BATTLE_MESSAGE uid bid msg) uuid gcode s
        = (s, [(ToSocket sock, ERROR battle_not_found)]) /\
        handle_message sock (LEAVE_BATTLE uid bid) uuid gcode s = (s, []) /\
        throws (SEND_BATTLE_MESSAGE uid bid msg) s = false /\
        throws (LEAVE_BATTLE uid bid) s = false)).
Proof.
  intros Hr. pose proof (reachable_Inv _ Hr) as HI. split; [| split].
  - intros.
    destruct (LEAVE_cases sock uid bid uuid gcode s)
      as [(b & Hb & ->) | (Hb & [(b & _ & _ & ->) | ->])]; simpl; try done.
    apply lookup_delete_eq.
  - intros sock b Hb Hs. rewrite handle_disconnect_battles. simpl.
    apply (disconnect_fold_gone sock _ _ bid b).
    + by apply elem_of_map_to_list.
    + destruct Hs as [<- | (p2 & Hp2 & <-)].
      * left. apply String.eqb_refl.
      * right. rewrite Hp2. simpl. apply String.eqb_refl.
  - intros Hb. split; [intros e He; by apply absent_stays_absent |].
    split; [| split].
    + intros. simpl. by rewrite (find_unstarted_absent _ _ HI Hb).
    + by apply read_undefined.
    + intros Hu. intros. simpl. by rewrite Hu.
Qed.

Lemma leave_removes_session_witness :
  battles (handle_message "sockA" (LEAVE_BATTLE "u1" "ABC123") "" ""
             started_ABC123).1 !! "ABC123" = None.
Proof.
  exact (proj1 (leave_removes_session started_ABC123 "ABC123"
                  reachable_started_ABC123) "sockA" "u1" "" "").
Defined.

(** After CREATE_BATTLE and LEAVE_BATTLE of "ABC123" the session is gone, and
    a further LEAVE_BATTLE addressed to it emits no event at all: not every
    operation addressed to the absent session reports an error. *)
Lemma leave_of_absent_session_is_silent :
  battles left_ABC123 !! "ABC123" = None /\
  handle_message "sockA" (LEAVE_BATTLE "u1" "ABC123") "" "" left_ABC123
  = (left_ABC123, []) /\
  ~ (forall m, addressed_to m = Some "ABC123" ->
               reports_error
                 (handle_message "sockA" m "" "" left_ABC123).2).
Proof.
  split; [vm_compute; reflexivity |]. split; [vm_compute; reflexivity |].
  intros H. destruct (H (LEAVE_BATTLE "u1" "ABC123") eq_refl) as (t & e & Hin).
  vm_compute in Hin. by apply elem_of_nil in Hin.
Qed.

(** ** Creating a session under a key that is taken *)

Lemma CREATE_BATTLE_result sock uid bid uname app uuid gcode s :
  handle_message sock (CREATE_BATTLE uid bid uname app) uuid gcode s =
  (assign_new bid
     (fun o => {| oid := o; battleId := bid; code := bid;
                  player1 := {| info := new_player uid uname sock app;
                                wins := 0 |};
                  player2 := None; started := false |}) s,
   [(ToSocket sock, BATTLE_CODE_GENERATED bid)]).
Proof. reflexivity. Qed.

(** C7, on the code.  While u1's unstarted session waits under "ABC123", a
    CREATE_BATTLE of u3 with the same id is confirmed like any other and the
    directory then holds u3's session under "ABC123": u1's session is gone
    without any event to u1's connection.  The same happens to the started
    session of u1 and u2. *)
Theorem create_battle_replaces_session :
  let create := CREATE_BATTLE "u3" "ABC123" None JUndefined in
  let r := handle_message "sockC" create "" "" created_ABC123 in
  let r' := handle_message "sockC" create "" "" started_ABC123 in
  (exists b, battles created_ABC123 !! "ABC123" = Some b /\
             userId (player1 b) = "u1" /\ started b = false) /\
  r.2 = [(ToSocket "sockC", BATTLE_CODE_GENERATED "ABC123")] /\
  (exists b, battles r.1 !! "ABC123" = Some b /\
             userId (player1 b) = "u3" /\ socketId (player1 b) = "sockC" /\
             player2 b = None /\ started b = false) /\
  (exists b, battles started_ABC123 !! "ABC123" = Some b /\
             userId (player1 b) = "u1" /\ started b = true) /\
  r'.2 = [(ToSocket "sockC", BATTLE_CODE_GENERATED "ABC123")] /\
  (exists b, battles r'.1 !! "ABC123" = Some b /\
             userId (player1 b) = "u3" /\ player2 b = None /\
             started b = false).
Proof.
  repeat split;
    try (eexists; split; [vm_compute; reflexivity | repeat split; reflexivity]).
Qed.

(** C2, on the code.  u1 creates "ABC123" and u2 joins: the session under
    "ABC123" is started.  The CREATE_BATTLE of u3 with the same id puts an
    unstarted session under "ABC123", with no event to u1 or u2; the
    JOIN_BATTLE of u4 addressed to the same code is then not answered with
    the error "Invalid battle code or battle already started": u4 is paired
    with u3 and both get MATCH_FOUND.  The [started] flag of the directory
    entry "ABC123" went from true back to false and to true a second time,
    and nobody left in between. *)
Theorem started_code_joined_again :
  let create := CREATE_BATTLE "u3" "ABC123" None JUndefined in
  let join := JOIN_BATTLE "u4" "ABC123" None JUndefined in
  let r3 := handle_message "sockC" create "" "" started_ABC123 in
  let r4 := handle_message "sockD" join "" "" r3.1 in
  reachable r4.1 /\
  (exists b, battles created_ABC123 !! "ABC123" = Some b /\
             started b = false) /\
  (exists b, battles started_ABC123 !! "ABC123" = Some b /\
             battleId b = "ABC123" /\ userId (player1 b) = "u1" /\
             started b = true) /\
  r3.2 = [(ToSocket "sockC", BATTLE_CODE_GENERATED "ABC123")] /\
  (exists b, battles r3.1 !! "ABC123" = Some b /\
             battleId b = "ABC123" /\ userId (player1 b) = "u3" /\
             started b = false) /\
  r4.2 = [(ToSocket "sockC", MATCH_FOUND "ABC123" "Anonymous" (JObj "{}"));
          (ToSocket "sockD", MATCH_FOUND "ABC123" "Anonymous" (JObj "{}"))] /\
  r4.2 <> [(ToSocket "sockD", ERROR invalid_code)] /\
  (exists b p2, battles r4.1 !! "ABC123" = Some b /\
                userId (player1 b) = "u3" /\ player2 b = Some p2 /\
                userId p2 = "u4" /\ started b = true).
Proof.
  split.
  { exact (reachable_step _
             (Message "sockD" (JOIN_BATTLE "u4" "ABC123" None JUndefined) "" "")
             (reachable_step _
                (Message "sockC" (CREATE_BATTLE "u3" "ABC123" None JUndefined)
                   "" "")
                reachable_started_ABC123)). }
  split; [eexists; split; [vm_compute; reflexivity | reflexivity] |].
  split; [eexists; split; [vm_compute; reflexivity | done] |].
  split; [reflexivity |].
  split; [eexists; split; [vm_compute; reflexivity | done] |].
  split; [vm_compute; reflexivity |].
  split; [vm_compute; discriminate |].
  eexists _, _. split; [vm_compute; reflexivity | done].
Qed.

(** ** Session records from one state to the next *)

Lemma processMatchmaking_sessions uuid gcode s s0 k b' :
  battles s0 = battles s -> allocated s0 = allocated s ->
  battles (processMatchmaking uuid gcode s0).1 !! k = Some b' ->
  session_step s k b'.
Proof.
  intros Hb Ha.
  destruct (queue_cases (matchmakingQueue s0)) as [Hlt | (p1 & p2 & r & Hq)].
  - rewrite processMatchmaking_short by done. simpl. rewrite Hb.
    apply session_kept.
  - rewrite (processMatchmaking_pair _ _ _ _ _ _ Hq). simpl. rewrite Hb, Ha.
    intros H. apply lookup_insert_Some in H as [[<- <-] | [_ H]].
    + apply session_paired.
    + by apply session_kept.
Qed.

Lemma step_sessions s e k b' :
  battles (step s e).1 !! k = Some b' -> session_step s k b'.
Proof.
  destruct e as [sock | sock m uuid gcode | sock | uuid gcode].
  - apply session_kept.
  - destruct m as [uid uname app | uid | | uid bid uname app | uid bid uname app
                  | uid bid msg | uid bid | | ty];
      [| simpl; try apply session_kept ..].
    + unfold step. rewrite JOIN_QUEUE_state.
      by apply processMatchmaking_sessions.
    + rewrite assign_new_battles.
      destruct (String.eqb bid "__proto__"); [apply session_kept |].
      intros H. apply lookup_insert_Some in H as [[<- <-] | [_ H]].
      * apply session_created.
      * by apply session_kept.
    + destruct (find_unstarted bid (battles s)) as [[k0 b0]|] eqn:E; simpl;
        [| apply session_kept].
      apply find_unstarted_Some in E as (Hk0 & _ & Hst).
      intros H. apply lookup_insert_Some in H as [[<- <-] | [_ H]].
      * by apply session_joined.
      * by apply session_kept.
    + change (battles (handle_message sock (SEND_BATTLE_MESSAGE uid bid msg)
                         uuid gcode s).1 !! k = Some b' -> session_step s k b').
      destruct (SEND_cases sock uid bid msg uuid gcode s)
        as [(b0 & Hb0 & ->) | (_ & [(b0 & _ & _ & ->) | [-> | ->]])];
        try apply session_kept.
      * destruct (route_cases
                    (fun b' => set_battles (<[bid := b']> (battles s)) s)
                    s uid msg b0) as [[_ ->] | [_ ->]]; simpl;
          [| apply session_kept].
        intros H. apply lookup_insert_Some in H as [[<- <-] | [_ H]].
        -- by apply session_round.
        -- by apply session_kept.
      * destruct (route_proto_battles s b0 uid msg) as (-> & _).
        apply session_kept.
    + change (battles (handle_message sock (LEAVE_BATTLE uid bid)
                         uuid gcode s).1 !! k = Some b' -> session_step s k b').
      destruct (LEAVE_cases sock uid bid uuid gcode s)
        as [(b0 & Hb0 & ->) | (_ & [(b0 & _ & _ & ->) | ->])];
        try apply session_kept.
      simpl. intros H. apply lookup_delete_Some in H as [_ H].
      by apply session_kept.
  - unfold step. rewrite handle_disconnect_battles. simpl. intros H.
    apply disconnect_fold_sub in H. by apply session_kept.
  - by apply processMatchmaking_sessions.
Qed.

Lemma recordRoundResult_ok uid w b :
  session_ok b -> session_ok (recordRoundResult uid w b).
Proof.
  intros (Hst & H1 & H2). unfold recordRoundResult.
  destruct (strict_eq_num w 1 && String.eqb uid (userId (player1 b))).
  { split; [done |]. split; [simpl; lia | done]. }
  destruct (strict_eq_num w 2 && opt_is userId (player2 b) uid);
    [| done].
  destruct (player2 b) as [p2|] eqn:E; [| by rewrite <- E in *].
  split; [| split; [done |]]; simpl.
  - rewrite Hst. split; by eexists.
  - intros p [= <-]. simpl. pose proof (H2 p2 eq_refl). lia.
Qed.

Lemma session_step_ok s k b' :
  (forall k b, battles s !! k = Some b -> session_ok b) ->
  session_step s k b' -> session_ok b'.
Proof.
  intros Hs [b Hb | p1 p2 gcode | p1 | b p2 Hb Hst | b uid w Hb].
  - by eapply Hs.
  - split; [simpl; split; [by eexists | done] |].
    split; [done |]. by intros p [= <-].
  - split; [simpl; split; [done | by intros [? ?]] |]. by split.
  - destruct (Hs _ _ Hb) as (_ & H1 & _).
    split; [simpl; split; [by eexists | done] |].
    split; [done |]. by intros p [= <-].
  - apply recordRoundResult_ok. by eapply Hs.
Qed.

Lemma reachable_session_ok s k b :
  reachable s -> battles s !! k = Some b -> session_ok b.
Proof.
  intros Hr. revert k b. induction Hr as [|s e _ IH]; intros k b.
  - simpl. by rewrite lookup_empty.
  - intros H. eapply session_step_ok; [exact IH |]. by eapply step_sessions.
Qed.

Lemma grown_refl b : grown b b.
Proof.
  repeat split; try done; try lia. intros p2 Hp2. exists p2. by repeat split.
Qed.

Lemma grown_trans b1 b2 b3 : grown b1 b2 -> grown b2 b3 -> grown b1 b3.
Proof.
  intros (Ho & Hid & Hc & Hi & Hw & H2 & Hst) (Ho' & Hid' & Hc' & Hi' & Hw' & H2' & Hst').
  repeat split; try congruence; try lia; [| tauto].
  intros p2 Hp2. destruct (H2 _ Hp2) as (q & Hq & Hqi & Hqw).
  destruct (H2' _ Hq) as (r & Hr & Hri & Hrw).
  exists r. split; [done |]. split; [congruence | lia].
Qed.

Lemma recordRoundResult_grown uid w b : grown b (recordRoundResult uid w b).
Proof.
  unfold recordRoundResult.
  destruct (strict_eq_num w 1 && String.eqb uid (userId (player1 b))).
  { repeat split; simpl; try done; try lia.
    intros p2 Hp2. exists p2. by repeat split. }
  destruct (strict_eq_num w 2 && opt_is userId (player2 b) uid);
    [| apply grown_refl].
  destruct (player2 b) as [p2|] eqn:E; [| apply grown_refl].
  repeat split; simpl; try done; try lia.
  intros p Hp. assert (p = p2) as -> by congruence.
  eexists. split; [done |]. split; [done | simpl; lia].
Qed.

Lemma session_step_grown s k b' :
  (forall k b, battles s !! k = Some b -> session_ok b) ->
  session_step s k b' ->
  (exists b, battles s !! k = Some b /\ grown b b') \/ oid b' = allocated s.
Proof.
  intros Hs [b Hb | p1 p2 gcode | p1 | b p2 Hb Hst | b uid w Hb].
  - left. exists b. split; [done | apply grown_refl].
  - by right.
  - by right.
  - left. exists b. split; [done |].
    destruct (Hs _ _ Hb) as (Hiff & _ & _).
    repeat split; simpl; try done; try lia.
    intros q Hq. assert (started b = true) by (apply Hiff; by eexists).
    congruence.
  - left. exists b. split; [done | apply recordRoundResult_grown].
Qed.

Lemma run_grown s es k b' :
  reachable s -> battles (run s es) !! k = Some b' ->
  (exists b, battles s !! k = Some b /\ grown b b') \/ allocated s <= oid b'.
Proof.
  revert s. induction es as [|e es IH]; intros s Hr H.
  - left. exists b'. split; [done | apply grown_refl].
  - rewrite run_cons in H.
    destruct (IH _ (reachable_step _ e Hr) H) as [(b1 & Hb1 & Hg1) | Hge].
    + apply step_sessions in Hb1.
      destruct (session_step_grown s k b1) as [(b & Hb & Hg) | Ho];
        [intros k0 b0; by apply reachable_session_ok | done | |].
      * left. exists b. split; [done |]. by eapply grown_trans.
      * right. destruct Hg1 as (Ho1 & _). lia.
    + right. destruct (step_evolves s e) as [Hle _]. lia.
Qed.

(** X1.  After any event, the record stored under a key is the record that
    was there, or the started 0-0 session of a pairing, or the unstarted
    one-slot session of a CREATE_BATTLE, or an unstarted session with slot 2
    filled and [started] set, or a session with a round result applied;
    nothing else ever changes a session record. *)
Theorem session_changes_accounted s e k b' :
  battles (step s e).1 !! k = Some b' -> session_step s k b'.
Proof. apply step_sessions. Qed.

Lemma session_changes_accounted_witness :
  session_step initial "ABC123"
    {| oid := 0; battleId := "ABC123"; code := "ABC123";
       player1 := {| info := new_player "u1" None "sockA" JUndefined;
                     wins := 0 |};
       player2 := None; started := false |}.
Proof.
  exact (session_changes_accounted initial
           (Message "sockA" (CREATE_BATTLE "u1" "ABC123" None JUndefined) "" "")
           "ABC123" _ eq_refl).
Defined.

(** X2.  In every reachable state a session is stored under its own
    [battleId], it is started exactly when slot 2 is filled, its win counters
    are not negative, and its object was allocated before. *)
Theorem reachable_sessions_well_formed s k b :
  reachable s -> battles s !! k = Some b ->
  battleId b = k /\
  (started b = true <-> is_Some (player2 b)) /\
  (0 <= wins (player1 b))%Z /\
  (forall p2, player2 b = Some p2 -> (0 <= wins p2)%Z) /\
  oid b < allocated s.
Proof.
  intros Hr Hb. pose proof (reachable_Inv _ Hr) as HI.
  destruct (reachable_session_ok _ _ _ Hr Hb) as (H1 & H2 & H3).
  split; [by eapply inv_keys |]. split; [done |]. split; [done |].
  split; [done |]. by eapply inv_oid_lt.
Qed.

Lemma reachable_sessions_well_formed_witness :
  let b := Build_Battle 0 "ABC123" "ABC123"
             (Build_Player (new_player "u1" None "sockA" JUndefined) 0)
             (Some (Build_Player (new_player "u2" None "sockB" JUndefined) 0))
             true in
  started b = true <-> is_Some (player2 b).
Proof.
  intros b.
  exact (proj1 (proj2 (reachable_sessions_well_formed started_ABC123 "ABC123" b
                         reachable_started_ABC123
                         ltac:(vm_compute; reflexivity)))).
Defined.

(** X3.  Over any sequence of events, a session object that is still in the
    directory sits under the same key, has the same id and code, the same
    player in slot 1 and, once slot 2 is filled, the same player in slot 2,
    and neither win counter has gone down. *)
Theorem session_slots_fixed_wins_monotone s es k b k' b' :
  reachable s ->
  battles s !! k = Some b ->
  battles (run s es) !! k' = Some b' ->
  oid b' = oid b ->
  k' = k /\ grown b b'.
Proof.
  intros Hr Hb Hb' Ho. pose proof (reachable_Inv _ Hr) as HI.
  destruct (run_grown _ _ _ _ Hr Hb') as [(b0 & Hb0 & Hg) | Hge].
  - assert (k' = k) as ->.
    { destruct Hg as (Ho0 & _).
      eapply (inv_oid_inj _ HI); [done | done | congruence]. }
    split; [done |]. congruence.
  - pose proof (inv_oid_lt _ HI _ _ Hb). lia.
Qed.

Lemma session_slots_fixed_wins_monotone_witness :
  grown
    (Build_Battle 0 "ABC123" "ABC123"
       (Build_Player (new_player "u1" None "sockA" JUndefined) 0)
       (Some (Build_Player (new_player "u2" None "sockB" JUndefined) 0))
       true)
    (Build_Battle 0 "ABC123" "ABC123"
       (Build_Player (new_player "u1" None "sockA" JUndefined) 1)
       (Some (Build_Player (new_player "u2" None "sockB" JUndefined) 0))
       true).
Proof.
  exact (proj2 (session_slots_fixed_wins_monotone started_ABC123
                  [Message "sockA"
                     (SEND_BATTLE_MESSAGE "u1" "ABC123" game_over_1) "" ""]
                  "ABC123" _ "ABC123" _ reachable_started_ABC123
                  ltac:(vm_compute; reflexivity)
                  ltac:(vm_compute; reflexivity) eq_refl)).
Defined.

(** ** Queue scenarios *)

(** X4.  When exactly one other player waits, a JOIN_QUEUE broadcasts the
    queue of the two, pairs them into a started session under the fresh id
    with the waiting player in slot 1 and the joiner in slot 2, both at zero
    wins, sends each of them MATCH_FOUND with the other's name and
    appearance, and broadcasts the emptied queue. *)
Theorem join_queue_pairs_with_waiting_player sock uid uname app uuid gcode s p :
  matchmakingQueue s = [p] ->
  userId p <> uid ->
  let joiner := new_player uid uname sock app in
  handle_message sock (JOIN_QUEUE uid uname app) uuid gcode s =
    (store_new uuid
       (fun o => {| oid := o; battleId := uuid; code := gcode;
                    player1 := {| info := p; wins := 0 |};
                    player2 := Some {| info := joiner; wins := 0 |};
                    started := true |}) (set_queue [] s),
     [(ToAll, QUEUE_UPDATE [p; joiner]);
      (ToSocket (socketId p),
       MATCH_FOUND uuid (username joiner) (appearance joiner));
      (ToSocket sock, MATCH_FOUND uuid (username p) (appearance p));
      (ToAll, QUEUE_UPDATE [])]).
Proof.
  intros Hq Hne joiner. unfold handle_message, enqueue. rewrite Hq. simpl.
  destruct (String.eqb_spec (userId p) uid) as [? | _]; [done |]. reflexivity.
Qed.

Lemma join_queue_pairs_with_waiting_player_witness :
  matchmakingQueue
    (handle_message "sockB" (JOIN_QUEUE "u2" None JUndefined) "id-1" "K3Y9QZ"
       (set_queue [new_player "u1" None "sockA" JUndefined] initial)).1 = [].
Proof.
  rewrite (join_queue_pairs_with_waiting_player "sockB" "u2" None JUndefined
             "id-1" "K3Y9QZ"
             (set_queue [new_player "u1" None "sockA" JUndefined] initial)
             (new_player "u1" None "sockA" JUndefined) eq_refl
             ltac:(discriminate)).
  reflexivity.
Defined.

Lemma JOIN_QUEUE_alone sock uid uname app uuid gcode s :
  matchmakingQueue s = [] \/
  (exists p, matchmakingQueue s = [p] /\ userId p = uid) ->
  handle_message sock (JOIN_QUEUE uid uname app) uuid gcode s =
    (set_queue [new_player uid uname sock app] s,
     [(ToAll, QUEUE_UPDATE [new_player uid uname sock app])]).
Proof.
  intros [Hq | (p & Hq & Hp)]; unfold handle_message, enqueue;
    rewrite Hq; simpl; [reflexivity |].
  rewrite Hp, String.eqb_refl. reflexivity.
Qed.

(** X5.  A JOIN_QUEUE that finds the queue empty, or holding only an entry of
    the same [userId], leaves exactly the new entry waiting, broadcasts it,
    and creates no session. *)
Theorem join_queue_alone_waits sock uid uname app uuid gcode s :
  matchmakingQueue s = [] \/
  (exists p, matchmakingQueue s = [p] /\ userId p = uid) ->
  let joiner := new_player uid uname sock app in
  handle_message sock (JOIN_QUEUE uid uname app) uuid gcode s =
    (set_queue [joiner] s, [(ToAll, QUEUE_UPDATE [joiner])]).
Proof.
  intros [Hq | (p & Hq & Hp)] joiner; unfold handle_message, enqueue;
    rewrite Hq; simpl; [reflexivity |].
  rewrite Hp, String.eqb_refl. reflexivity.
Qed.

Lemma join_queue_alone_waits_witness :
  handle_message "sockA" (JOIN_QUEUE "u1" None JUndefined) "id-1" "K3Y9QZ"
    initial
  = (set_queue [new_player "u1" None "sockA" JUndefined] initial,
     [(ToAll, QUEUE_UPDATE [new_player "u1" None "sockA" JUndefined])]).
Proof.
  exact (join_queue_alone_waits "sockA" "u1" None JUndefined "id-1" "K3Y9QZ"
           initial (or_introl eq_refl)).
Defined.

(** X6.  After LEAVE_QUEUE no entry of that [userId] is queued, the entries of
    all other users are still queued, the sessions are untouched, the new
    queue is broadcast, and a repeated LEAVE_QUEUE changes nothing more. *)
Theorem leave_queue_removes_user sock uid uuid gcode s :
  let r := handle_message sock (LEAVE_QUEUE uid) uuid gcode s in
  (uid ∉ userId <$> matchmakingQueue r.1) /\
  (forall p, p ∈ matchmakingQueue r.1 <->
             p ∈ matchmakingQueue s /\ userId p <> uid) /\
  battles r.1 = battles s /\
  r.2 = [(ToAll, QUEUE_UPDATE (matchmakingQueue r.1))] /\
  (handle_message sock (LEAVE_QUEUE uid) uuid gcode r.1).1 = r.1.
Proof.
  simpl. split; [| split; [| split; [done | split; [done |]]]].
  - intros H. apply list_elem_of_fmap in H as (p & Hp & Hin).
    apply list_elem_of_In, filter_In in Hin as [_ Hin].
    apply negb_true_iff, String.eqb_neq in Hin. congruence.
  - intros p. rewrite !list_elem_of_In, filter_In, negb_true_iff.
    by rewrite String.eqb_neq.
  - unfold set_queue. simpl. f_equal.
    apply forallb_filter_id, forallb_forall. intros p Hp.
    by apply filter_In in Hp as [_ Hp].
Qed.

(** X7.  On an empty queue JOIN_QUEUE followed by LEAVE_QUEUE of the same
    user gives back the state it started from. *)
Theorem join_then_leave_queue_restores sockA sockB uid uname app u g u' g' s :
  matchmakingQueue s = [] ->
  run s [Message sockA (JOIN_QUEUE uid uname app) u g;
         Message sockB (LEAVE_QUEUE uid) u' g'] = s.
Proof.
  intros Hq.
  change (run s _) with
    (handle_message sockB (LEAVE_QUEUE uid) u' g'
       (handle_message sockA (JOIN_QUEUE uid uname app) u g s).1).1.
  rewrite (JOIN_QUEUE_alone sockA uid uname app u g s (or_introl Hq)).
  simpl. rewrite String.eqb_refl. simpl.
  destruct s as [q bs n]. simpl in Hq. by subst.
Qed.

Lemma join_then_leave_queue_restores_witness :
  run initial [Message "sockA" (JOIN_QUEUE "u1" None JUndefined) "" "";
               Message "sockA" (LEAVE_QUEUE "u1") "" ""] = initial.
Proof.
  exact (join_then_leave_queue_restores "sockA" "sockA" "u1" None JUndefined
           "" "" "" "" initial eq_refl).
Defined.

(** X8.  The pairing timer never does anything in a reachable state: at most
    one player is waiting between two events, so the periodic
    [processMatchmaking] returns at once. *)
Theorem matchmaking_timer_is_idle s uuid gcode :
  reachable s ->
  step s (MatchmakingTimer uuid gcode) = (s, []).
Proof.
  intros Hr. apply reachable_queue_short in Hr.
  simpl. apply processMatchmaking_short. lia.
Qed.

Lemma matchmaking_timer_is_idle_witness :
  step initial (MatchmakingTimer "id-1" "K3Y9QZ") = (initial, []).
Proof.
  exact (matchmaking_timer_is_idle initial "id-1" "K3Y9QZ" reachable_initial).
Defined.

(** ** Relay and notifications *)

Lemma to_opponent_Some id e :
  id <> "" -> to_opponent (Some id) e = [(ToSocket id, e)].
Proof.
  intros Hne. simpl. by destruct (String.eqb_spec id "").
Qed.

Lemma to_opponent_elem o e x :
  x ∈ to_opponent o e -> exists id, o = Some id /\ x = (ToSocket id, e).
Proof.
  destruct o as [id|]; simpl; [| by intros ?%elem_of_nil].
  destruct (negb (String.eqb id "")); [| by intros ?%elem_of_nil].
  intros ->%list_elem_of_singleton. by exists id.
Qed.

Lemma opponentSocketId_cases uid b :
  (String.eqb (userId (player1 b)) uid = true /\
   opponentSocketId uid b
   = option_map (fun p : Player => socketId p) (player2 b)) \/
  (String.eqb (userId (player1 b)) uid = false /\
   exists p2, player2 b = Some p2 /\ userId p2 = uid /\
              opponentSocketId uid b = Some (socketId (player1 b))) \/
  (String.eqb (userId (player1 b)) uid = false /\
   (forall p2, player2 b = Some p2 -> userId p2 <> uid) /\
   opponentSocketId uid b = None).
Proof.
  unfold opponentSocketId.
  destruct (String.eqb (userId (player1 b)) uid); [by left | right].
  destruct (player2 b) as [p2|]; simpl.
  - destruct (String.eqb_spec (userId p2) uid) as [Heq | Hne].
    + left. split; [done |]. by exists p2.
    + right. split; [done |]. split; [| done]. by intros p [= <-].
  - right. by repeat split.
Qed.

(** X9.  A SEND_BATTLE_MESSAGE that is not a game-over report changes
    nothing and is forwarded, unaltered and tagged with the sender's
    [userId], to the connection of the other slot only: from slot 1 to slot
    2, from slot 2 to slot 1.  A sender in neither slot, or a session whose
    slot 2 is still empty, gets nothing forwarded and no error. *)
Theorem relay_goes_to_the_other_slot sock uid bid msg uuid gcode s b :
  battles s !! bid = Some b ->
  truthy (gameOver msg) && truthy (winner msg) = false ->
  let r := handle_message sock (SEND_BATTLE_MESSAGE uid bid msg) uuid gcode s in
  r.1 = s /\
  (forall p2, player2 b = Some p2 -> uid = userId (player1 b) ->
              socketId p2 <> "" ->
              r.2 = [(ToSocket (socketId p2), BATTLE_MESSAGE msg uid)]) /\
  (forall p2, player2 b = Some p2 -> uid <> userId (player1 b) ->
              uid = userId p2 -> socketId (player1 b) <> "" ->
              r.2 = [(ToSocket (socketId (player1 b)),
                      BATTLE_MESSAGE msg uid)]) /\
  (uid <> userId (player1 b) ->
   (forall p2, player2 b = Some p2 -> uid <> userId p2) -> r.2 = []) /\
  (player2 b = None -> r.2 = []).
Proof.
  intros Hb Hg. rewrite (SEND_own _ _ _ _ _ _ _ _ Hb). unfold route.
  rewrite Hg. simpl. split; [done |].
  destruct (opponentSocketId_cases uid b)
    as [[H1 ->] | [(H1 & p & Hp & Hu & ->) | (H1 & H2 & ->)]].
  - apply String.eqb_eq in H1. split; [| split; [| split]].
    + intros p2 Hp2 _ Hs. rewrite Hp2. simpl option_map.
      by apply to_opponent_Some.
    + intros p2 _ Hne. congruence.
    + intros Hne. congruence.
    + by intros ->.
  - apply String.eqb_neq in H1. split; [| split; [| split]].
    + intros p2 _ Heq. congruence.
    + intros p2 _ _ _ Hs. by apply to_opponent_Some.
    + intros _ H2. destruct (H2 p Hp). congruence.
    + intros Hn. congruence.
  - apply String.eqb_neq in H1. split; [| split; [| split]].
    + intros p2 _ Heq. congruence.
    + intros p2 Hp2 _ Heq. destruct (H2 p2 Hp2). congruence.
    + done.
    + done.
Qed.

Lemma relay_goes_to_the_other_slot_witness :
  (handle_message "sockA"
     (SEND_BATTLE_MESSAGE "u1" "ABC123"
        {| gameOver := JUndefined; winner := JUndefined; body := "move" |})
     "" "" started_ABC123).2
  = [(ToSocket "sockB",
      BATTLE_MESSAGE
        {| gameOver := JUndefined; winner := JUndefined; body := "move" |}
        "u1")].
Proof.
  exact (proj1 (proj2 (relay_goes_to_the_other_slot "sockA" "u1" "ABC123"
                         {| gameOver := JUndefined; winner := JUndefined;
                            body := "move" |} "" "" started_ABC123
                         (Build_Battle 0 "ABC123" "ABC123"
                            (Build_Player
                               (new_player "u1" None "sockA" JUndefined) 0)
                            (Some (Build_Player
                                     (new_player "u2" None "sockB" JUndefined)
                                     0))
                            true)
                         ltac:(vm_compute; reflexivity) eq_refl))
           (Build_Player (new_player "u2" None "sockB" JUndefined) 0)
           eq_refl eq_refl ltac:(discriminate)).
Defined.

Lemma recordRoundResult_infos uid w b :
  info (player1 (recordRoundResult uid w b)) = info (player1 b) /\
  (info <$> player2 (recordRoundResult uid w b)) = (info <$> player2 b).
Proof.
  unfold recordRoundResult.
  destruct (strict_eq_num w 1 && String.eqb uid (userId (player1 b)));
    [done |].
  destruct (strict_eq_num w 2 && opt_is userId (player2 b) uid); [| done].
  destruct (player2 b) as [p|] eqn:E; simpl; rewrite ?E; done.
Qed.

(** X10.  Every game-over report addressed to a session of the directory,
    whether or not it is credited, is answered with BATTLE_WIN_STATE carrying
    the two counters as they are after the report, first to slot 1's
    connection and then, if slot 2 is filled, to slot 2's connection; only
    then the report itself is relayed. *)
Theorem win_state_sent_on_every_game_over sock uid bid msg uuid gcode s b :
  battles s !! bid = Some b ->
  truthy (gameOver msg) = true ->
  truthy (winner msg) = true ->
  let r := handle_message sock (SEND_BATTLE_MESSAGE uid bid msg) uuid gcode s in
  exists b',
    battles r.1 !! bid = Some b' /\
    r.2 =
      (ToSocket (socketId (player1 b)), winState b')
      :: match player2 b with
         | Some p2 => [(ToSocket (socketId p2), winState b')]
         | None => []
         end
      ++ to_opponent (opponentSocketId uid b) (BATTLE_MESSAGE msg uid).
Proof.
  intros Hb Hg Hw. rewrite (SEND_own _ _ _ _ _ _ _ _ Hb). unfold route.
  rewrite Hg, Hw. simpl.
  exists (recordRoundResult uid (winner msg) b).
  split; [by rewrite lookup_insert_eq |].
  destruct (recordRoundResult_infos uid (winner msg) b) as [H1 H2].
  assert (opponentSocketId uid (recordRoundResult uid (winner msg) b)
          = opponentSocketId uid b) as ->.
  { unfold opponentSocketId, opt_is. rewrite H1.
    destruct (player2 (recordRoundResult uid (winner msg) b)) as [q|],
             (player2 b) as [p2|]; simpl in *; try done.
    by injection H2 as ->. }
  rewrite H1.
  destruct (player2 (recordRoundResult uid (winner msg) b)) as [q|],
           (player2 b) as [p2|]; simpl in *; try done.
  by injection H2 as ->.
Qed.

Lemma win_state_sent_on_every_game_over_witness :
  exists b' out,
    (handle_message "sockB"
       (SEND_BATTLE_MESSAGE "u2" "ABC123" game_over_1) "" ""
       started_ABC123).2
    = (ToSocket "sockA", winState b') :: out.
Proof.
  destruct (win_state_sent_on_every_game_over "sockB" "u2" "ABC123"
              game_over_1 "" "" started_ABC123
              (Build_Battle 0 "ABC123" "ABC123"
                 (Build_Player (new_player "u1" None "sockA" JUndefined) 0)
                 (Some (Build_Player
                          (new_player "u2" None "sockB" JUndefined) 0))
                 true)
              ltac:(vm_compute; reflexivity) eq_refl eq_refl)
    as (b' & _ & Hout).
  exists b'. eexists. exact Hout.
Defined.

(** X11.  A LEAVE_BATTLE sent by one slot of a session deletes it and sends
    OPPONENT_DISCONNECTED to the connection of the other slot, and to nobody
    else; when slot 2 is still empty nothing is sent. *)
Theorem leave_battle_notifies_opponent sock uid bid uuid gcode s b :
  battles s !! bid = Some b ->
  let r := handle_message sock (LEAVE_BATTLE uid bid) uuid gcode s in
  r.1 = set_battles (delete bid (battles s)) s /\
  (forall p2, player2 b = Some p2 -> uid = userId (player1 b) ->
              socketId p2 <> "" ->
              r.2 = [(ToSocket (socketId p2), OPPONENT_DISCONNECTED)]) /\
  (forall p2, player2 b = Some p2 -> uid <> userId (player1 b) ->
              uid = userId p2 -> socketId (player1 b) <> "" ->
              r.2 = [(ToSocket (socketId (player1 b)),
                      OPPONENT_DISCONNECTED)]) /\
  (player2 b = None -> r.2 = []).
Proof.
  intros Hb. rewrite (LEAVE_own _ _ _ _ _ _ _ Hb). simpl. split; [done |].
  destruct (opponentSocketId_cases uid b)
    as [[H1 ->] | [(H1 & p & Hp & Hu & ->) | (H1 & H2 & ->)]].
  - apply String.eqb_eq in H1. split; [| split].
    + intros p2 Hp2 _ Hs. rewrite Hp2. simpl option_map.
      by apply to_opponent_Some.
    + intros p2 _ Hne. congruence.
    + by intros ->.
  - apply String.eqb_neq in H1. split; [| split].
    + intros p2 _ Heq. congruence.
    + intros p2 _ _ _ Hs. by apply to_opponent_Some.
    + intros Hn. congruence.
  - apply String.eqb_neq in H1. split; [| split].
    + intros p2 _ Heq. congruence.
    + intros p2 Hp2 _ Heq. destruct (H2 p2 Hp2). congruence.
    + done.
Qed.

Lemma leave_battle_notifies_opponent_witness :
  (handle_message "sockB" (LEAVE_BATTLE "u2" "ABC123") "" ""
     started_ABC123).2
  = [(ToSocket "sockA", OPPONENT_DISCONNECTED)].
Proof.
  exact (proj1 (proj2 (proj2 (leave_battle_notifies_opponent "sockB" "u2"
                                "ABC123" "" "" started_ABC123
                                (Build_Battle 0 "ABC123" "ABC123"
                                   (Build_Player
                                      (new_player "u1" None "sockA" JUndefined)
                                      0)
                                   (Some (Build_Player
                                            (new_player "u2" None "sockB"
                                               JUndefined) 0))
                                   true)
                                ltac:(vm_compute; reflexivity))))
           (Build_Player (new_player "u2" None "sockB" JUndefined) 0)
           eq_refl ltac:(discriminate) eq_refl ltac:(discriminate)).
Defined.

(** ** Disconnects *)

Lemma involves_bool sock b :
  involves sock b <->
  String.eqb (socketId (player1 b)) sock = true
  \/ opt_is socketId (player2 b) sock = true.
Proof.
  unfold involves, opt_is. rewrite String.eqb_eq. split.
  - intros [H | (p2 & -> & H)]; [by left | right]. by apply String.eqb_eq.
  - intros [H | H]; [by left | right].
    destruct (player2 b) as [p2|]; [| done].
    exists p2. split; [done |]. by apply String.eqb_eq.
Qed.

Lemma disconnect_battle_out sock acc kb :
  (disconnect_battle sock acc kb).2 = acc.2 ++ disconnect_notice sock kb.2.
Proof.
  destruct kb as [k b]. unfold disconnect_battle, disconnect_notice. simpl.
  destruct (String.eqb (socketId (player1 b)) sock); [done |].
  destruct (opt_is socketId (player2 b) sock); [done |].
  by rewrite app_nil_r.
Qed.

Lemma disconnect_fold_out sock l acc x :
  x ∈ (foldl (disconnect_battle sock) acc l).2 <->
  x ∈ acc.2 \/ exists k b, (k, b) ∈ l /\ x ∈ disconnect_notice sock b.
Proof.
  revert acc. induction l as [|[k b] l IH]; intros acc; cbn [foldl].
  - split; [by left |]. intros [H | (k & b & H & _)]; [done |].
    by apply elem_of_nil in H.
  - rewrite IH, disconnect_battle_out, elem_of_app. cbn [snd]. split.
    + intros [[H | H] | (k' & b' & Hin & H)].
      * by left.
      * right. exists k, b. split; [by left | done].
      * right. exists k', b'. split; [by right | done].
    + intros [H | (k' & b' & Hin & H)]; [by left; left |].
      apply elem_of_cons in Hin as [[= -> ->] | Hin].
      * left. by right.
      * right. by exists k', b'.
Qed.

Lemma handle_disconnect_out sock s x :
  x ∈ (handle_disconnect sock s).2 <->
  (x = (ToAll, QUEUE_UPDATE
                 (List.filter (fun p => negb (String.eqb (socketId p) sock))
                    (matchmakingQueue s)))
   /\ is_Some (List.find (fun p => String.eqb (socketId p) sock)
                 (matchmakingQueue s)))
  \/ exists k b, battles s !! k = Some b /\ x ∈ disconnect_notice sock b.
Proof.
  unfold handle_disconnect.
  destruct (List.find _ (matchmakingQueue s)) as [p|] eqn:E; simpl.
  - destruct (foldl _ _ _) as [bs out2] eqn:F. simpl.
    assert (out2 = (foldl (disconnect_battle sock) (battles s, [])
                      (map_to_list (battles s))).2) as -> by by rewrite F.
    rewrite elem_of_cons, disconnect_fold_out. simpl. split.
    + intros [-> | [H | (k & b & Hin & H)]].
      * left. split; [done | by eexists].
      * by apply elem_of_nil in H.
      * right. exists k, b. by rewrite <- elem_of_map_to_list.
    + intros [[-> _] | (k & b & Hin & H)]; [by left | right; right].
      exists k, b. by rewrite elem_of_map_to_list.
  - destruct (foldl _ _ _) as [bs out2] eqn:F. simpl.
    assert (out2 = (foldl (disconnect_battle sock) (battles s, [])
                      (map_to_list (battles s))).2) as -> by by rewrite F.
    rewrite disconnect_fold_out. simpl. split.
    + intros [H | (k & b & Hin & H)]; [by apply elem_of_nil in H |].
      right. exists k, b. by rewrite <- elem_of_map_to_list.
    + intros [[_ [? ?]] | (k & b & Hin & H)]; [done | right].
      exists k, b. by rewrite elem_of_map_to_list.
Qed.

(** X12.  After the disconnect of a connection no queue entry and no session
    slot refers to it any more, while the queue entries of other connections
    and the sessions it held no slot of are kept as they were. *)
Theorem disconnect_cleans_up sock s :
  let s' := (handle_disconnect sock s).1 in
  (forall p, p ∈ matchmakingQueue s' <->
             p ∈ matchmakingQueue s /\ socketId p <> sock) /\
  (forall k b, battles s' !! k = Some b <->
               battles s !! k = Some b /\ ~ involves sock b).
Proof.
  simpl. rewrite handle_disconnect_battles. simpl. split.
  - intros p. rewrite !list_elem_of_In, filter_In, negb_true_iff.
    by rewrite String.eqb_neq.
  - intros k b. split.
    + intros H. pose proof (disconnect_fold_sub _ _ _ _ _ H) as Hb.
      simpl in Hb. split; [done |]. intros Hi%involves_bool.
      rewrite (disconnect_fold_gone sock _ _ k b) in H; [done | | done].
      by apply elem_of_map_to_list.
    + intros [Hb Hn]. apply disconnect_fold_keep; [done |].
      intros b' Hin%elem_of_map_to_list.
      assert (b' = b) as -> by congruence.
      rewrite involves_bool in Hn.
      destruct (String.eqb (socketId (player1 b)) sock),
               (opt_is socketId (player2 b) sock); tauto.
Qed.

(** X13.  The disconnect of a connection that holds slot 1 of a session sends
    OPPONENT_DISCONNECTED to slot 2's connection, and one that holds only
    slot 2 sends it to slot 1's connection; OPPONENT_DISCONNECTED goes to
    nobody but a slot of a session that the disconnected connection was
    in. *)
Theorem disconnect_notifies_opponents sock s :
  let out := (handle_disconnect sock s).2 in
  (forall k b p2,
     battles s !! k = Some b -> socketId (player1 b) = sock ->
     player2 b = Some p2 -> socketId p2 <> "" ->
     (ToSocket (socketId p2), OPPONENT_DISCONNECTED) ∈ out) /\
  (forall k b p2,
     battles s !! k = Some b -> socketId (player1 b) <> sock ->
     player2 b = Some p2 -> socketId p2 = sock ->
     (ToSocket (socketId (player1 b)), OPPONENT_DISCONNECTED) ∈ out) /\
  (forall t,
     (t, OPPONENT_DISCONNECTED) ∈ out ->
     exists k b, battles s !! k = Some b /\ involves sock b /\
                 (t = ToSocket (socketId (player1 b)) \/
                  exists p2, player2 b = Some p2 /\
                             t = ToSocket (socketId p2))).
Proof.
  simpl. split; [| split].
  - intros k b p2 Hb H1 H2 Hs. apply handle_disconnect_out. right.
    exists k, b. split; [done |]. unfold disconnect_notice.
    rewrite H1, String.eqb_refl, H2. simpl option_map.
    rewrite to_opponent_Some by done. by left.
  - intros k b p2 Hb H1 H2 Hs. apply handle_disconnect_out. right.
    exists k, b. split; [done |]. unfold disconnect_notice.
    apply String.eqb_neq in H1. rewrite H1, H2. simpl.
    rewrite Hs, String.eqb_refl. by left.
  - intros t H. apply handle_disconnect_out in H as [[H _] | (k & b & Hb & H)];
      [done |].
    exists k, b. split; [done |]. unfold disconnect_notice in H.
    destruct (String.eqb (socketId (player1 b)) sock) eqn:E1.
    + split; [apply involves_bool; by left |].
      apply to_opponent_elem in H as (id & Hid & [= ->]). right.
      destruct (player2 b) as [p2|]; [| done]. injection Hid as <-.
      by exists p2.
    + destruct (opt_is socketId (player2 b) sock) eqn:E2;
        [| by apply elem_of_nil in H].
      split; [apply involves_bool; by right |].
      apply list_elem_of_singleton in H as [= ->]. by left.
Qed.

(** ** What the emitted events say *)

Lemma processMatchmaking_out uuid gcode s x :
  x ∈ (processMatchmaking uuid gcode s).2 ->
  exists p1 p2 r,
    matchmakingQueue s = p1 :: p2 :: r /\
    (x = (ToSocket (socketId p1),
          MATCH_FOUND uuid (username p2) (appearance p2)) \/
     x = (ToSocket (socketId p2),
          MATCH_FOUND uuid (username p1) (appearance p1)) \/
     x = (ToAll, QUEUE_UPDATE r)).
Proof.
  destruct (queue_cases (matchmakingQueue s)) as [Hlt | (p1 & p2 & r & Hq)].
  - rewrite processMatchmaking_short by done. by intros ?%elem_of_nil.
  - rewrite (processMatchmaking_pair _ _ _ _ _ _ Hq).
    unfold broadcastQueueUpdate. simpl.
    rewrite !elem_of_cons, elem_of_nil. intros H.
    exists p1, p2, r. split; [done |]. tauto.
Qed.

Lemma JOIN_QUEUE_out sock uid uname app uuid gcode s x :
  x ∈ (handle_message sock (JOIN_QUEUE uid uname app) uuid gcode s).2 ->
  x = (ToAll, QUEUE_UPDATE (enqueue (new_player uid uname sock app)
                              (matchmakingQueue s)))
  \/ x ∈ (processMatchmaking uuid gcode
            (set_queue (enqueue (new_player uid uname sock app)
                          (matchmakingQueue s)) s)).2.
Proof.
  simpl. destruct (processMatchmaking uuid gcode _) as [s2 out]. simpl.
  rewrite elem_of_cons. tauto.
Qed.

Lemma route_out write s uid msg b x :
  x ∈ (route write s uid msg b).2 ->
  (exists t w1 w2, x = (t, BATTLE_WIN_STATE w1 w2)) \/
  (exists t, x = (t, BATTLE_MESSAGE msg uid)).
Proof.
  destruct (route_cases write s uid msg b) as [[_ ->] | [_ ->]]; simpl.
  - rewrite elem_of_cons, elem_of_app. intros [-> | [H | H]].
    + left. by eexists _, _, _.
    + destruct (player2 (recordRoundResult uid (winner msg) b));
        [| by apply elem_of_nil in H].
      apply list_elem_of_singleton in H as ->. left. by eexists _, _, _.
    + apply to_opponent_elem in H as (id & _ & ->). right. by eexists.
  - intros (id & _ & ->)%to_opponent_elem. right. by eexists.
Qed.

Lemma SEND_out sock uid bid msg uuid gcode s x :
  x ∈ (handle_message sock (SEND_BATTLE_MESSAGE uid bid msg) uuid gcode s).2 ->
  (x = (ToSocket sock, ERROR battle_not_found) /\ battles s !! bid = None /\
   (handle_message sock (SEND_BATTLE_MESSAGE uid bid msg) uuid gcode s).1 = s)
  \/ (exists t w1 w2, x = (t, BATTLE_WIN_STATE w1 w2))
  \/ (exists t, x = (t, BATTLE_MESSAGE msg uid)).
Proof.
  destruct (SEND_cases sock uid bid msg uuid gcode s)
    as [(b & Hb & ->) | (Hb & [(b & _ & _ & ->) | [-> | ->]])].
  - intros H%route_out. by right.
  - intros H%route_out. by right.
  - by intros ?%elem_of_nil.
  - intros ->%list_elem_of_singleton. by left.
Qed.

Lemma LEAVE_out sock uid bid uuid gcode s x :
  x ∈ (handle_message sock (LEAVE_BATTLE uid bid) uuid gcode s).2 ->
  exists t, x = (t, OPPONENT_DISCONNECTED).
Proof.
  destruct (LEAVE_cases sock uid bid uuid gcode s)
    as [(b & Hb & ->) | (Hb & [(b & _ & _ & ->) | ->])]; simpl.
  - intros (id & _ & ->)%to_opponent_elem. by eexists.
  - intros (id & _ & ->)%to_opponent_elem. by eexists.
  - by intros ?%elem_of_nil.
Qed.

(** X14.  An ERROR event is only ever the answer to a JOIN_BATTLE that found
    no unstarted session, with "Invalid battle code or battle already
    started", or to a SEND_BATTLE_MESSAGE for an absent session, with
    "Battle not found"; it goes to the sender's own connection, and the
    event that caused it has changed nothing. *)
Theorem errors_go_to_sender_only s e t err :
  (t, ERROR err) ∈ (step s e).2 ->
  (step s e).1 = s /\
  exists sock m uuid gcode,
    e = Message sock m uuid gcode /\ t = ToSocket sock /\
    ((exists uid bid uname app,
        m = JOIN_BATTLE uid bid uname app /\ err = invalid_code /\
        find_unstarted bid (battles s) = None) \/
     (exists uid bid msg,
        m = SEND_BATTLE_MESSAGE uid bid msg /\ err = battle_not_found /\
        battles s !! bid = None)).
Proof.
  destruct e as [sock | sock m uuid gcode | sock | uuid gcode].
  - simpl. by intros [=]%list_elem_of_singleton.
  - destruct m as [uid uname app | uid | | uid bid uname app | uid bid uname app
                  | uid bid msg | uid bid | | ty]; unfold step.
    + intros [[=] | H]%JOIN_QUEUE_out.
      apply processMatchmaking_out in H as (? & ? & ? & _ & [[=] | [[=] | [=]]]).
    + simpl. by intros [=]%list_elem_of_singleton.
    + simpl. by intros [=]%list_elem_of_singleton.
    + simpl. by intros [=]%list_elem_of_singleton.
    + simpl. destruct (find_unstarted bid (battles s)) as [[k b]|] eqn:E; simpl.
      * rewrite !elem_of_cons, elem_of_nil. by intros [[=] | [[=] | []]].
      * intros [= -> ->]%list_elem_of_singleton. split; [done |].
        exists sock, (JOIN_BATTLE uid bid uname app), uuid, gcode.
        split; [done |]. split; [done |]. left. by exists uid, bid, uname, app.
    + intros [([= -> ->] & Hb & Hs) | [(? & ? & ? & [=]) | (? & [=])]]%SEND_out.
      split; [done |].
      exists sock, (SEND_BATTLE_MESSAGE uid bid msg), uuid, gcode.
      split; [done |]. split; [done |]. right. by exists uid, bid, msg.
    + by intros (? & [=])%LEAVE_out.
    + simpl. by intros [=]%list_elem_of_singleton.
    + simpl. by intros ?%elem_of_nil.
  - unfold step. intros [[[=] _] | (k & b & _ & H)]%handle_disconnect_out.
    unfold disconnect_notice in H.
    destruct (String.eqb (socketId (player1 b)) sock).
    + by apply to_opponent_elem in H as (? & _ & [=]).
    + destruct (opt_is socketId (player2 b) sock);
        [| by apply elem_of_nil in H].
      by apply list_elem_of_singleton in H as [=].
  - unfold step. intros H.
    apply processMatchmaking_out in H as (? & ? & ? & _ & [[=] | [[=] | [=]]]).
Qed.

Lemma errors_go_to_sender_only_witness :
  (step initial
     (Message "sockB" (JOIN_BATTLE "u2" "ABC123" None JUndefined) "" "")).1
  = initial.
Proof.
  exact (proj1 (errors_go_to_sender_only initial
                  (Message "sockB" (JOIN_BATTLE "u2" "ABC123" None JUndefined)
                     "" "")
                  (ToSocket "sockB") invalid_code
                  ltac:(vm_compute; by left))).
Defined.

(** X15.  Every MATCH_FOUND names a session that is in the directory after
    the event, started and with both slots filled; it goes to the connection
    of one slot and carries the name and appearance of the player in the
    other slot. *)
Theorem match_found_names_live_session s e t bid name app :
  reachable s ->
  (t, MATCH_FOUND bid name app) ∈ (step s e).2 ->
  exists b p2,
    battles (step s e).1 !! bid = Some b /\
    started b = true /\ player2 b = Some p2 /\
    ((t = ToSocket (socketId (player1 b)) /\
      name = username p2 /\ app = appearance p2) \/
     (t = ToSocket (socketId p2) /\
      name = username (player1 b) /\ app = appearance (player1 b))).
Proof.
  intros Hr. pose proof (reachable_Inv _ Hr) as HI.
  assert (forall uuid gcode s0,
            (t, MATCH_FOUND bid name app)
              ∈ (processMatchmaking uuid gcode s0).2 ->
            exists b p2,
              battles (processMatchmaking uuid gcode s0).1 !! bid = Some b /\
              started b = true /\ player2 b = Some p2 /\
              ((t = ToSocket (socketId (player1 b)) /\
                name = username p2 /\ app = appearance p2) \/
               (t = ToSocket (socketId p2) /\
                name = username (player1 b) /\
                app = appearance (player1 b)))) as Hpm.
  { intros uuid gcode s0 H.
    apply processMatchmaking_out in H as (p1 & p2 & r & Hq & H).
    rewrite (processMatchmaking_pair _ _ _ _ _ _ Hq). simpl.
    destruct H as [[= -> -> -> ->] | [[= -> -> -> ->] | [=]]];
      eexists; eexists; (split; [apply lookup_insert_eq |]);
      (split; [done |]); (split; [done |]); simpl; [left | right]; done. }
  destruct e as [sock | sock m uuid gcode | sock | uuid gcode].
  - simpl. by intros [=]%list_elem_of_singleton.
  - destruct m as [uid uname app' | uid | | uid b0 uname app' | uid b0 uname app'
                  | uid b0 msg | uid b0 | | ty]; unfold step.
    + intros [[=] | H]%JOIN_QUEUE_out.
      rewrite JOIN_QUEUE_state. by apply Hpm.
    + simpl. by intros [=]%list_elem_of_singleton.
    + simpl. by intros [=]%list_elem_of_singleton.
    + simpl. by intros [=]%list_elem_of_singleton.
    + simpl. destruct (find_unstarted b0 (battles s)) as [[k b]|] eqn:E; simpl.
      * apply find_unstarted_Some in E as (Hk & Hid & Hst).
        pose proof (inv_keys _ HI _ _ Hk) as Hkey.
        rewrite !elem_of_cons, elem_of_nil.
        intros [[= -> -> -> ->] | [[= -> -> -> ->] | []]];
          eexists; eexists; rewrite Hkey;
          (split; [apply lookup_insert_eq |]);
          (split; [done |]); (split; [done |]); simpl; [left | right]; done.
      * by intros [=]%list_elem_of_singleton.
    + by intros [([=] & _) | [(? & ? & ? & [=]) | (? & [=])]]%SEND_out.
    + by intros (? & [=])%LEAVE_out.
    + simpl. by intros [=]%list_elem_of_singleton.
    + simpl. by intros ?%elem_of_nil.
  - unfold step. intros [[[=] _] | (k & b & _ & H)]%handle_disconnect_out.
    unfold disconnect_notice in H.
    destruct (String.eqb (socketId (player1 b)) sock).
    + by apply to_opponent_elem in H as (? & _ & [=]).
    + destruct (opt_is socketId (player2 b) sock);
        [| by apply elem_of_nil in H].
      by apply list_elem_of_singleton in H as [=].
  - unfold step. apply Hpm.
Qed.

Lemma match_found_names_live_session_witness :
  exists b p2,
    battles started_ABC123 !! "ABC123" = Some b /\
    started b = true /\ player2 b = Some p2 /\
    ((ToSocket "sockA" = ToSocket (socketId (player1 b)) /\
      "Anonymous" = username p2 /\ JObj "{}" = appearance p2) \/
     (ToSocket "sockA" = ToSocket (socketId p2) /\
      "Anonymous" = username (player1 b) /\
      JObj "{}" = appearance (player1 b))).
Proof.
  exact (match_found_names_live_session created_ABC123
           (Message "sockB" (JOIN_BATTLE "u2" "ABC123" None JUndefined) "" "")
           (ToSocket "sockA") "ABC123" "Anonymous" (JObj "{}")
           (reachable_step initial
              (Message "sockA" (CREATE_BATTLE "u1" "ABC123" None JUndefined)
                 "" "") reachable_initial)
           ltac:(vm_compute; by left)).
Defined.

(** X16.  From any reachable state, CREATE_BATTLE with an id other than
    [__proto__] followed by a JOIN_BATTLE with the same id gives a started
    session under that id with the creator in slot 1 and the joiner in slot
    2, both at zero wins; the joiner's message is answered with MATCH_FOUND
    to the creator's connection, naming the joiner, and to the joiner, naming
    the creator; no other session is touched by the two messages. *)
Theorem create_then_join_starts_session
    s sockA uidA unameA appA sockB uidB unameB appB bid u g u' g' :
  reachable s ->
  bid <> "__proto__" ->
  let creator := new_player uidA unameA sockA appA in
  let joiner := new_player uidB unameB sockB appB in
  let s1 := (handle_message sockA (CREATE_BATTLE uidA bid unameA appA) u g s).1 in
  let r := handle_message sockB (JOIN_BATTLE uidB bid unameB appB) u' g' s1 in
  battles r.1 !! bid =
    Some {| oid := allocated s; battleId := bid; code := bid;
            player1 := {| info := creator; wins := 0 |};
            player2 := Some {| info := joiner; wins := 0 |};
            started := true |} /\
  r.2 = [(ToSocket sockA, MATCH_FOUND bid (username joiner) (appearance joiner));
         (ToSocket sockB,
          MATCH_FOUND bid (username creator) (appearance creator))] /\
  (forall k, k <> bid -> battles r.1 !! k = battles s !! k).
Proof.
  intros Hr Hbid creator joiner s1 r.
  assert (reachable s1) as Hr1.
  { apply (reachable_step s
             (Message sockA (CREATE_BATTLE uidA bid unameA appA) u g) Hr). }
  pose proof (reachable_Inv _ Hr1) as HI1.
  apply String.eqb_neq in Hbid.
  assert (battles s1 !! bid =
          Some {| oid := allocated s; battleId := bid; code := bid;
                  player1 := {| info := creator; wins := 0 |};
                  player2 := None; started := false |}) as Hb.
  { unfold s1. simpl. rewrite assign_new_battles, Hbid.
    apply lookup_insert_eq. }
  assert (forall k, k <> bid -> battles s1 !! k = battles s !! k) as Hother.
  { intros k Hk. unfold s1. simpl. rewrite assign_new_battles, Hbid.
    by rewrite lookup_insert_ne. }
  clearbody s1. unfold r. simpl.
  rewrite (find_unstarted_key _ _ _ HI1 Hb eq_refl). simpl.
  split; [apply lookup_insert_eq |]. split; [done |].
  intros k Hk. rewrite lookup_insert_ne by done. by apply Hother.
Qed.

Lemma create_then_join_starts_session_witness :
  exists b, battles started_ABC123 !! "ABC123" = Some b /\ started b = true.
Proof.
  eexists. split.
  - exact (proj1 (create_then_join_starts_session initial
                    "sockA" "u1" None JUndefined "sockB" "u2" None JUndefined
                    "ABC123" "" "" "" "" reachable_initial
                    ltac:(discriminate))).
  - reflexivity.
Defined.

(** A CREATE_BATTLE with the id [__proto__] stores no session under any key:
    the session becomes the prototype of the directory, where JOIN_BATTLE
    does not find it. *)
Example create_proto_is_not_joinable :
  let s1 := (handle_message "sockA"
               (CREATE_BATTLE "u1" "__proto__" None JUndefined) "" ""
               initial).1 in
  battles s1 = ∅ /\
  (exists b, prototype s1 = Some b /\ battleId b = "__proto__") /\
  handle_message "sockB" (JOIN_BATTLE "u2" "__proto__" None JUndefined) "" "" s1
  = (s1, [(ToSocket "sockB", ERROR invalid_code)]).
Proof.
  split; [reflexivity |]. split; [by eexists | reflexivity].
Qed.

(** A SEND_BATTLE_MESSAGE or LEAVE_BATTLE whose id is the name of a function
    of [Object.prototype], and under which no session is stored, ends in a
    TypeError and has emitted nothing. *)
Lemma inherited_name_throws s bid uid msg sock uuid gcode :
  battles s !! bid = None -> bid ∈ object_prototype_names ->
  throws (SEND_BATTLE_MESSAGE uid bid msg) s = true /\
  throws (LEAVE_BATTLE uid bid) s = true /\
  handle_message sock (SEND_BATTLE_MESSAGE uid bid msg) uuid gcode s = (s, []) /\
  handle_message sock (LEAVE_BATTLE uid bid) uuid gcode s = (s, []).
Proof.
  intros Hb Hn.
  assert (read s bid = ReadOther (JObj "function")) as Hv.
  { unfold read. rewrite Hb.
    unfold object_prototype_names in Hn.
    repeat (apply elem_of_cons in Hn as [-> | Hn];
            [by destruct (prototype s) |]).
    by apply elem_of_nil in Hn. }
  simpl. by rewrite Hv.
Qed.

End ServerProps.

Module DatabaseProps.

Import Database.

Lemma parse_quote_char c cur acc r :
  parse_from (InStr cur) acc (quote_char c ++ r) = parse_from (InStr (c :: cur)) acc r.
Proof.
  destruct c as [[] [] [] [] [] [] [] []]; reflexivity.
Qed.

Lemma parse_quote_chars s cur acc r :
  parse_from (InStr cur) acc (concat (map quote_char s) ++ r)
  = parse_from (InStr (rev s ++ cur)) acc r.
Proof.
  revert cur. induction s as [|c s IH]; intros cur; [done |].
  simpl. rewrite <- app_assoc, parse_quote_char, IH.
  by rewrite <- app_assoc.
Qed.

Lemma parse_quote m acc r :
  parse_from (InStr []) acc (tl (quote m) ++ r)
  = parse_from AfterStr (m :: acc) r.
Proof.
  unfold quote. simpl. rewrite <- app_assoc, parse_quote_chars.
  simpl. rewrite app_nil_r, rev_involutive.
  by rewrite string_of_list_ascii_of_string.
Qed.

Lemma parse_rest ms acc :
  parse_from AfterStr acc (concat (map (fun y => ","%char :: quote y) ms) ++ ["]"%char])
  = Some (rev acc ++ ms).
Proof.
  revert acc. induction ms as [|m ms IH]; intros acc; simpl.
  - by rewrite app_nil_r.
  - rewrite <- app_assoc.
    change (parse_from (InStr []) acc
              (tl (quote m) ++ concat (map (fun y => ","%char :: quote y) ms) ++ ["]"%char])
            = Some (rev acc ++ m :: ms)).
    rewrite parse_quote, IH. simpl. by rewrite <- app_assoc.
Qed.

Lemma JSON_roundtrip ms : JSON_parse (JSON_stringify ms) = Some ms.
Proof.
  unfold JSON_parse, JSON_stringify.
  rewrite list_ascii_of_string_of_list_ascii.
  destruct ms as [|m ms]; [reflexivity |].
  rewrite <- app_assoc.
  change (parse_from (InStr []) []
            (tl (quote m) ++ concat (map (fun y => ","%char :: quote y) ms) ++ ["]"%char])
          = Some (m :: ms)).
  by rewrite parse_quote, parse_rest.
Qed.

Lemma insert_row_perm r l : insert_row r l ≡ₚ r :: l.
Proof.
  induction l as [|x l IH]; simpl; [done |].
  destruct (date x <=? date r)%Z; [done |].
  rewrite IH. apply Permutation_swap.
Qed.

Lemma order_by_date_desc_perm l : order_by_date_desc l ≡ₚ l.
Proof.
  induction l as [|x l IH]; simpl; [done |].
  by rewrite insert_row_perm, IH.
Qed.

Lemma insert_row_sorted r l :
  StronglySorted newer_first l -> StronglySorted newer_first (insert_row r l).
Proof.
  induction 1 as [|x l Hl IH Hx]; simpl.
  - repeat constructor.
  - destruct (Z.leb_spec (date x) (date r)).
    + constructor; [by constructor |].
      constructor; [unfold newer_first; lia |].
      eapply Forall_impl; [exact Hx |]. unfold newer_first. intros; simpl in *. lia.
    + constructor; [done |].
      rewrite insert_row_perm. constructor; [unfold newer_first; lia | done].
Qed.

Lemma order_by_date_desc_sorted l :
  StronglySorted newer_first (order_by_date_desc l).
Proof.
  induction l as [|x l IH]; simpl; [constructor | by apply insert_row_sorted].
Qed.

Lemma sorted_prefix_newer l1 x l2 :
  StronglySorted newer_first (l1 ++ x :: l2) ->
  Forall (fun y : StoredBattle => (date x <= date y)%Z) l1.
Proof.
  induction l1 as [|y l1 IH]; simpl; [constructor |].
  intros H. apply StronglySorted_inv in H as [Hs Hy].
  constructor; [| by apply IH].
  rewrite Forall_forall in Hy. apply (Hy x), elem_of_app. right. by left.
Qed.

Lemma filter_all {A} (P : A -> Prop) `{!forall x, Decision (P x)} (l : list A) :
  Forall P l -> filter P l = l.
Proof.
  induction 1 as [|x l Hx _ IH]; [done |].
  by rewrite filter_cons_True, IH.
Qed.

Lemma newest_in_take (n : nat) (l : list StoredBattle) (x : StoredBattle) :
  x ∈ l ->
  length (filter (fun y : StoredBattle => (date x <= date y)%Z) l) <= n ->
  x ∈ take n (order_by_date_desc l).
Proof.
  intros Hin Hn.
  rewrite <- (order_by_date_desc_perm l) in Hin, Hn.
  pose proof (order_by_date_desc_sorted l) as Hs.
  apply list_elem_of_split in Hin as (l1 & l2 & E). rewrite E in *.
  apply sorted_prefix_newer in Hs.
  rewrite filter_app, filter_cons_True, length_app in Hn by lia.
  rewrite (filter_all _ l1) in Hn by done.
  simpl in Hn.
  apply list_elem_of_lookup. exists (length l1).
  rewrite lookup_take_lt by lia.
  by rewrite list_lookup_middle.
Qed.

Lemma decode_encoded (battle : BlobBattleRecord) :
  decode (with_moves (JSON_stringify (moves battle)) battle) = Some battle.
Proof.
  unfold decode. simpl. rewrite JSON_roundtrip. by destruct battle.
Qed.

Lemma decode_id row r : decode row = Some r -> id r = id row.
Proof.
  unfold decode. destruct (JSON_parse (moves row)); [| done].
  by intros [= <-].
Qed.

Lemma insertBattle_run_Some db row db' :
  insertBattle_run db row = Some db' ->
  battles db' = battles db ++ [row] /\
  (forall r, r ∈ battles db -> id r <> id row).
Proof.
  unfold insertBattle_run. destruct (winner row); [| done].
  destruct (existsb (fun r : BattleRow string => String.eqb (id r) (id row))
              (battles db)) eqn:Hex; [done |].
  destruct (foreign_keys db && negb (references_ok db row)); [done |].
  intros [= <-]. split; [done |].
  intros r Hr Hid.
  enough (existsb (fun r : BattleRow string => String.eqb (id r) (id row))
            (battles db) = true) by congruence.
  apply existsb_exists. exists r. split; [by apply list_elem_of_In |].
  by apply String.eqb_eq.
Qed.

(** C9, as the code has it.  When [recordBattle] succeeds on a table whose
    rows were all written by it, [getRecentBattles] afterwards returns; every
    returned record with the id of the recorded battle is the recorded battle itself, so its moves
    are the recorded moves in their order; and the recorded battle is among
    the returned records whenever fewer than ten stored battles are at least
    as recent.  The encoding alone is also inverted by the decoding. *)
Theorem recordBattle_getRecentBattles_roundtrip db battle db' i :
  stored_ok db ->
  recordBattle db battle = Some (db', i) ->
  JSON_parse (JSON_stringify (moves battle)) = Some (moves battle) /\
  i = id battle /\
  exists rs,
    getRecentBattles db' = Some rs /\
    (forall r, r ∈ rs -> id r = id battle ->
               r = battle /\ moves r = moves battle) /\
    (length (filter (fun row : StoredBattle => (date battle <= date row)%Z)
               (battles db)) < 10 ->
     battle ∈ rs).
Proof.
  intros Hok Hrec. split; [apply JSON_roundtrip |].
  unfold recordBattle in Hrec.
  destruct (insertBattle_run db _) as [db1|] eqn:E; [| done].
  injection Hrec as -> <-. split; [done |].
  apply insertBattle_run_Some in E as [Hb Hfresh]. simpl in Hfresh.
  set (row := with_moves (JSON_stringify (moves battle)) battle) in *.
  assert (forall x, x ∈ getRecentBattles_all db' -> x ∈ battles db ++ [row])
    as Hsub.
  { intros x Hx. unfold getRecentBattles_all in Hx.
    apply elem_of_take in Hx as (j & Hj & _).
    apply list_elem_of_lookup_2 in Hj.
    rewrite order_by_date_desc_perm in Hj. by rewrite <- Hb. }
  assert (is_Some (getRecentBattles db')) as [rs Hrs].
  { apply mapM_is_Some, Forall_forall. intros x Hx. simpl.
    apply Hsub, elem_of_app in Hx as [Hx | Hx].
    - unfold stored_ok in Hok. rewrite Forall_forall in Hok.
      destruct (Hok _ Hx) as [ms Hms]. unfold decode.
      rewrite Hms, JSON_roundtrip. by eexists.
    - apply list_elem_of_singleton in Hx as ->. unfold row.
      rewrite decode_encoded. by eexists. }
  exists rs. split; [done |].
  apply mapM_Some in Hrs. split.
  - intros r Hr Hid. apply list_elem_of_lookup in Hr as [j Hj].
    destruct (Forall2_lookup_r _ _ _ _ _ Hrs Hj) as (x & Hx & Hdec).
    apply list_elem_of_lookup_2, Hsub, elem_of_app in Hx as [Hx | Hx].
    + apply decode_id in Hdec. destruct (Hfresh x Hx). congruence.
    + apply list_elem_of_singleton in Hx as ->. unfold row in Hdec.
      rewrite decode_encoded in Hdec. injection Hdec as <-. done.
  - intros Hcount.
    assert (row ∈ getRecentBattles_all db') as Hin.
    { unfold getRecentBattles_all. rewrite Hb. apply newest_in_take.
      - apply elem_of_app. right. by left.
      - rewrite filter_app, length_app. simpl.
        rewrite filter_cons_True by (unfold row; simpl; lia). simpl. lia. }
    apply list_elem_of_lookup in Hin as [j Hj].
    destruct (Forall2_lookup_l _ _ _ _ _ Hrs Hj) as (y & Hy & Hdec).
    unfold row in Hdec. rewrite decode_encoded in Hdec. injection Hdec as <-.
    by apply list_elem_of_lookup_2 in Hy.
Qed.

Lemma recordBattle_getRecentBattles_roundtrip_witness :
  exists db', recordBattle empty_db battle_1 = Some (db', "b1"%string) /\
              exists rs, getRecentBattles db' = Some rs /\ battle_1 ∈ rs.
Proof.
  eexists. split; [vm_compute; reflexivity |].
  destruct (recordBattle_getRecentBattles_roundtrip empty_db battle_1 _ _
              ltac:(constructor) ltac:(vm_compute; reflexivity))
    as (_ & _ & rs & Hrs & _ & Hin).
  exists rs. split; [exact Hrs |]. apply Hin. simpl. lia.
Defined.

(** After ten later battles were recorded, [recordBattle] of [battle_1]
    succeeds, and [getRecentBattles] returns ten records none of which has
    the id or the moves of [battle_1]: the round trip yields no record with
    the recorded moves. *)
Lemma recorded_battle_not_among_recent :
  exists db db' rs,
    recordBattles empty_db later_battles = Some db /\
    recordBattle db battle_1 = Some (db', "b1"%string) /\
    getRecentBattles db' = Some rs /\
    length rs = 10 /\
    Forall (fun r => id r <> id battle_1 /\ moves r <> moves battle_1) rs.
Proof.
  eexists _, _, _.
  split; [vm_compute; reflexivity |].
  split; [vm_compute; reflexivity |].
  split; [vm_compute; reflexivity |].
  split; [reflexivity |].
  repeat (constructor; [split; discriminate |]). constructor.
Qed.

Example recordBattle_then_getRecentBattles :
  (recordBattle empty_db battle_1 ≫= fun r => getRecentBattles r.1)
  = Some [battle_1].
Proof. vm_compute. reflexivity. Qed.

(** ** Reading the recent battles *)

Lemma sorted_take {A} (R : A -> A -> Prop) n (l : list A) :
  StronglySorted R l -> StronglySorted R (take n l).
Proof.
  intros H. revert n. induction H as [|x l Hl IH Hx]; intros [|n]; simpl;
    try constructor; [apply IH |].
  rewrite Forall_forall in Hx. apply Forall_forall. intros y Hy. apply Hx.
  apply elem_of_take in Hy as (i & Hi & _). by eapply list_elem_of_lookup_2.
Qed.

Lemma sorted_app_order {A} (R : A -> A -> Prop) (l1 l2 : list A) x y :
  StronglySorted R (l1 ++ l2) -> x ∈ l1 -> y ∈ l2 -> R x y.
Proof.
  induction l1 as [|a l1 IH]; simpl; [by intros _ ?%elem_of_nil |].
  intros H Hx Hy. apply StronglySorted_inv in H as [Hs Ha].
  apply elem_of_cons in Hx as [-> | Hx]; [| by apply IH].
  rewrite Forall_forall in Ha. apply Ha, elem_of_app. by right.
Qed.

Lemma decode_date row r : decode row = Some r -> date r = date row.
Proof.
  unfold decode. destruct (JSON_parse (moves row)); [| done].
  by intros [= <-].
Qed.

Lemma decoded_sorted (l : list StoredBattle) (k : list BlobBattleRecord) :
  Forall2 (fun x y => decode x = Some y) l k ->
  StronglySorted newer_first l -> StronglySorted newest_first k.
Proof.
  induction 1 as [|x y l k Hxy Hlk IH]; [constructor |].
  intros H. apply StronglySorted_inv in H as [Hs Hx].
  constructor; [by apply IH |].
  rewrite Forall_forall in Hx. apply Forall_forall. intros r Hr.
  apply list_elem_of_lookup in Hr as [j Hj].
  destruct (Forall2_lookup_r _ _ _ _ _ Hlk Hj) as (row & Hrow & Hdec).
  apply list_elem_of_lookup_2, Hx in Hrow. unfold newer_first in Hrow.
  unfold newest_first. rewrite (decode_date _ _ Hxy), (decode_date _ _ Hdec).
  done.
Qed.

(** X17.  On a table written by [recordBattle], [getRecentBattles] returns
    the decoded form of stored rows only, ten of them or all if fewer are
    stored, newest first; and no stored battle that is left out is strictly
    newer than one that is returned. *)
Theorem getRecentBattles_newest_ten db :
  stored_ok db ->
  exists rs,
    getRecentBattles db = Some rs /\
    length rs = min 10 (length (battles db)) /\
    StronglySorted newest_first rs /\
    (forall r, r ∈ rs -> exists row, row ∈ battles db /\ decode row = Some r) /\
    (forall row r, row ∈ battles db -> r ∈ rs -> (date r < date row)%Z ->
                   exists r', r' ∈ rs /\ decode row = Some r').
Proof.
  intros Hok.
  assert (forall x, x ∈ getRecentBattles_all db -> x ∈ battles db) as Hsub.
  { intros x Hx. unfold getRecentBattles_all in Hx.
    apply elem_of_take in Hx as (j & Hj & _).
    apply list_elem_of_lookup_2 in Hj.
    by rewrite order_by_date_desc_perm in Hj. }
  assert (is_Some (getRecentBattles db)) as [rs Hrs].
  { apply mapM_is_Some, Forall_forall. intros x Hx%Hsub. simpl.
    unfold stored_ok in Hok. rewrite Forall_forall in Hok.
    destruct (Hok _ Hx) as [ms Hms]. unfold decode.
    rewrite Hms, JSON_roundtrip. by eexists. }
  exists rs. split; [done |]. apply mapM_Some in Hrs.
  split; [| split; [| split]].
  - rewrite <- (Forall2_length _ _ _ Hrs). unfold getRecentBattles_all.
    rewrite length_take, (Permutation_length (order_by_date_desc_perm _)).
    done.
  - eapply decoded_sorted; [exact Hrs |].
    apply sorted_take, order_by_date_desc_sorted.
  - intros r Hr. apply list_elem_of_lookup in Hr as [j Hj].
    destruct (Forall2_lookup_r _ _ _ _ _ Hrs Hj) as (row & Hrow & Hdec).
    exists row. split; [| done]. by apply list_elem_of_lookup_2, Hsub in Hrow.
  - intros row r Hrow Hr Hlt.
    rewrite <- (order_by_date_desc_perm (battles db)) in Hrow.
    rewrite <- (take_drop 10 (order_by_date_desc (battles db))) in Hrow.
    apply elem_of_app in Hrow as [Hrow | Hrow].
    + apply list_elem_of_lookup in Hrow as [j Hj].
      destruct (Forall2_lookup_l _ _ _ _ _ Hrs Hj) as (r' & Hr' & Hdec).
      exists r'. split; [| done]. by apply list_elem_of_lookup_2 in Hr'.
    + exfalso. apply list_elem_of_lookup in Hr as [j Hj].
      destruct (Forall2_lookup_r _ _ _ _ _ Hrs Hj) as (x & Hx & Hdec).
      apply list_elem_of_lookup_2 in Hx.
      pose proof (order_by_date_desc_sorted (battles db)) as Hs.
      rewrite <- (take_drop 10 (order_by_date_desc (battles db))) in Hs.
      pose proof (sorted_app_order _ _ _ _ _ Hs Hx Hrow) as Hord.
      unfold newer_first in Hord. rewrite (decode_date _ _ Hdec) in Hlt. lia.
Qed.

Lemma getRecentBattles_newest_ten_witness :
  exists rs, getRecentBattles empty_db = Some rs /\ length rs = 0.
Proof.
  destruct (getRecentBattles_newest_ten empty_db ltac:(constructor))
    as (rs & Hrs & Hlen & _).
  exists rs. split; [exact Hrs | exact Hlen].
Defined.

(** X18.  A successful [recordBattle] appends exactly one row, the battle
    with its moves encoded, and changes nothing else; the table stays
    decodable; and any later [recordBattle] with the same id is refused. *)
Theorem recordBattle_appends_and_rejects_duplicate db battle db' i :
  recordBattle db battle = Some (db', i) ->
  battles db' = battles db ++ [with_moves (JSON_stringify (moves battle)) battle]
  /\ profiles db' = profiles db
  /\ foreign_keys db' = foreign_keys db
  /\ (stored_ok db -> stored_ok db')
  /\ (forall battle2, id battle2 = id battle -> recordBattle db' battle2 = None).
Proof.
  unfold recordBattle.
  destruct (insertBattle_run db _) as [db1|] eqn:E; [| done].
  intros [= -> <-].
  pose proof (insertBattle_run_Some _ _ _ E) as [Hb _].
  unfold insertBattle_run in E. simpl in E.
  destruct (winner battle); [| done].
  destruct (existsb _ (battles db)); [done |].
  destruct (foreign_keys db && negb (references_ok db _)); [done |].
  injection E as <-. simpl in *.
  split; [done |]. split; [done |]. split; [done |]. split.
  - intros Hok. unfold stored_ok in *. simpl. apply Forall_app. split; [done |].
    constructor; [| constructor]. by eexists.
  - intros battle2 Hid. unfold insertBattle_run. simpl.
    destruct (winner battle2); [| done].
    rewrite existsb_app. simpl. rewrite Hid, String.eqb_refl.
    by rewrite orb_true_r.
Qed.

Lemma recordBattle_appends_and_rejects_duplicate_witness :
  recordBattle
    {| profiles := profiles empty_db;
       battles := [with_moves (JSON_stringify (moves battle_1)) battle_1];
       foreign_keys := true |} battle_1 = None.
Proof.
  exact (proj2 (proj2 (proj2 (proj2
           (recordBattle_appends_and_rejects_duplicate empty_db battle_1 _
              "b1"%string ltac:(vm_compute; reflexivity))))) battle_1 eq_refl).
Defined.

(** ** The encoded text *)

Lemma quote_char_printable c :
  forallb (fun d => (32 <=? N_of_ascii d)%N) (quote_char c) = true.
Proof. destruct c as [[] [] [] [] [] [] [] []]; reflexivity. Qed.

Lemma quote_printable m :
  forallb (fun d => (32 <=? N_of_ascii d)%N) (quote m) = true.
Proof.
  unfold quote. simpl. rewrite forallb_app. simpl. rewrite andb_true_r.
  induction (list_ascii_of_string m) as [|c l IH]; simpl; [done |].
  by rewrite forallb_app, quote_char_printable, IH.
Qed.

Lemma JSON_stringify_printable a :
  forallb (fun d => (32 <=? N_of_ascii d)%N)
    (list_ascii_of_string (JSON_stringify a)) = true.
Proof.
  unfold JSON_stringify. rewrite list_ascii_of_string_of_list_ascii.
  destruct a as [|x r]; [reflexivity |].
  cbn [forallb]. rewrite !forallb_app, quote_printable.
  assert (forallb (fun d => (32 <=? N_of_ascii d)%N)
            (concat (map (fun y => ","%char :: quote y) r)) = true) as ->.
  { induction r as [|y r IH]; [done |].
    cbn [map concat]. rewrite forallb_app. cbn [forallb].
    by rewrite quote_printable, IH. }
  reflexivity.
Qed.

(** X19.  The text that [recordBattle] stores for a list of moves contains no
    control character: every code unit of it is at least 0x20; and two
    different lists of moves never get the same text. *)
Theorem JSON_stringify_printable_injective :
  (forall a, Forall (fun d => (32 <= N_of_ascii d)%N)
               (list_ascii_of_string (JSON_stringify a))) /\
  (forall a b, JSON_stringify a = JSON_stringify b -> a = b).
Proof.
  split.
  - intros a. apply Forall_forall. intros d Hd%list_elem_of_In.
    apply N.leb_le.
    exact (proj1 (forallb_forall _ _) (JSON_stringify_printable a) d Hd).
  - intros a b H.
    assert (Some a = Some b) as [= ->]; [| done].
    by rewrite <- (JSON_roundtrip a), <- (JSON_roundtrip b), H.
Qed.

(** ** Profiles *)

Lemma getProfile_updateProfile_run row rows uid :
  getProfile (updateProfile_run row rows) uid =
  if String.eqb (userId row) uid then Some row else getProfile rows uid.
Proof.
  unfold getProfile. induction rows as [|r rest IH]; simpl.
  - by destruct (String.eqb (userId row) uid).
  - destruct (String.eqb_spec (userId r) (userId row)) as [Heq | Hne]; simpl.
    + rewrite Heq. by destruct (String.eqb (userId row) uid).
    + destruct (String.eqb_spec (userId r) uid) as [Hr | Hr].
      * destruct (String.eqb_spec (userId row) uid); [congruence | done].
      * apply IH.
Qed.

Lemma updateProfile_run_ids row rows :
  userId <$> updateProfile_run row rows =
  if bool_decide (userId row ∈ userId <$> rows) then userId <$> rows
  else (userId <$> rows) ++ [userId row].
Proof.
  induction rows as [|r rest IH]; [done |]. cbn [updateProfile_run].
  destruct (String.eqb_spec (userId r) (userId row)) as [Heq | Hne];
    rewrite !fmap_cons.
  - rewrite bool_decide_eq_true_2; [by rewrite Heq |]. rewrite Heq. by left.
  - rewrite IH. case_bool_decide as H1; case_bool_decide as H2; try done.
    + destruct H2. by right.
    + apply elem_of_cons in H2 as [H2 | H2]; [congruence | done].
Qed.

(** X20.  [saveProfile] followed by [getProfile] of the same user returns the
    saved profile with [lastActive] set to the time of the save, and leaves
    what [getProfile] returns for every other user as it was.  It replaces
    the row of a user who has one and appends a row otherwise, so a table
    with one row per user stays so. *)
Theorem saveProfile_getProfile now profile rows :
  getProfile (saveProfile now profile rows) (userId profile)
    = Some (with_lastActive now profile) /\
  (forall uid, uid <> userId profile ->
     getProfile (saveProfile now profile rows) uid = getProfile rows uid) /\
  (userId <$> saveProfile now profile rows) =
    (if bool_decide (userId profile ∈ userId <$> rows) then userId <$> rows
     else (userId <$> rows) ++ [userId profile]) /\
  (NoDup (userId <$> rows) ->
   NoDup (userId <$> saveProfile now profile rows)).
Proof.
  unfold saveProfile. split; [| split; [| split]].
  - rewrite getProfile_updateProfile_run. simpl. by rewrite String.eqb_refl.
  - intros uid Hne. rewrite getProfile_updateProfile_run. simpl.
    by destruct (String.eqb_spec (userId profile) uid); [congruence |].
  - by rewrite updateProfile_run_ids.
  - intros Hnd. rewrite updateProfile_run_ids. simpl.
    case_bool_decide as H; [done |].
    apply NoDup_app. split; [done |]. split; [| apply NoDup_singleton].
    intros x Hx ->%list_elem_of_singleton. done.
Qed.

(** X21.  After any sequence of [saveProfile] calls, [getProfile] of a user
    returns what the last call for that user saved, with the time of that
    call, and what it returned before if no call was for that user. *)
Theorem saveProfiles_last_write_wins calls rows uid :
  getProfile (saveProfiles calls rows) uid =
  match last (List.filter (fun c => String.eqb (userId c.2) uid) calls) with
  | Some c => Some (with_lastActive c.1 c.2)
  | None => getProfile rows uid
  end.
Proof.
  unfold saveProfiles.
  induction calls as [|c calls IH] using rev_ind; [done |].
  rewrite foldl_app. simpl. unfold saveProfile at 1.
  rewrite getProfile_updateProfile_run. simpl.
  rewrite List.filter_app. simpl.
  destruct (String.eqb (userId c.2) uid).
  - by rewrite last_snoc.
  - by rewrite app_nil_r.
Qed.

End DatabaseProps.
